(** * aqts-capture-cloudwatch-dashboard: the SQS widget builder

    A shallow embedding of [cloudwatch_monitoring/sqs.py]
    ([create_sqs_widgets], [get_all_sqs_queue_urls], [is_iow_queue_filter])
    and the properties its specification states about it.

    - Python strings are [string]s, sequences of 8-bit characters: queue
      URLs, queue names and deploy tiers are ASCII, and [upper] leaves any
      other character as it is.
    - The boto3 SQS client is a pair of functions from a request to its
      response, the account being the same during a run; every call builds
      a response of its own, so that extending the list of the first
      response in place changes no later one.  Every call is recorded in a
      log, which lets the properties speak about the calls that are made.
    - The cursor [positioning], which the caller passes in and the code
      updates in place, lives in the state threaded through a run, next to
      the log.
    - The [while True] loop runs on fuel, one unit per iteration; a result
      is always stated for every amount of fuel from a bound on. *)

From Stdlib Require Import ZArith Ascii String List Lia.
From stdpp Require Import base gmap strings list.

Local Open Scope Z_scope.

(** ** Python string operations used by the module *)

Module PyStr.

(** [str.upper] on one ASCII character: a..z are shifted to A..Z. *)
Definition upper_char (c : ascii) : ascii :=
  let n := N_of_ascii c in
  if ((97 <=? n) && (n <=? 122))%N then ascii_of_N (n - 32) else c.

(** [s.upper()] *)
Fixpoint upper (s : string) : string :=
  match s with
  | EmptyString => EmptyString
  | String c s' => String (upper_char c) (upper s')
  end.

(** [needle in hay] on strings: [needle] starts at some position of [hay]. *)
Fixpoint str_in (needle hay : string) : bool :=
  String.prefix needle hay ||
  match hay with
  | EmptyString => false
  | String _ hay' => str_in needle hay'
  end.

(** [s.split(sep)] for a one-character separator.  The result is never an
    empty list, so the last case of the inner [match] is not reached. *)
Fixpoint split (sep : ascii) (s : string) : list string :=
  match s with
  | EmptyString => [EmptyString]
  | String c s' =>
      if Ascii.eqb c sep then EmptyString :: split sep s'
      else match split sep s' with
           | cur :: rest => String c cur :: rest
           | [] => [String c EmptyString]
           end
  end.

(** [s.replace(old, new)] for a non-empty [old]: occurrences are found
    scanning from the left and do not overlap.  [skip] counts the
    characters of a match that are still to be dropped. *)
Fixpoint replace_go (old new : string) (skip : nat) (s : string) : string :=
  match s with
  | EmptyString => EmptyString
  | String c s' =>
      match skip with
      | S k => replace_go old new k s'
      | O =>
          if String.prefix old s
          then new +:+ replace_go old new (String.length old - 1) s'
          else String c (replace_go old new 0 s')
      end
  end.

(** [s.replace("", new)] puts [new] before every character and at the end. *)
Fixpoint replace_empty (new s : string) : string :=
  match s with
  | EmptyString => new
  | String c s' => new +:+ String c (replace_empty new s')
  end.

Definition replace (old new s : string) : string :=
  match old with
  | EmptyString => replace_empty new s
  | String _ _ => replace_go old new 0 s
  end.

(** What [needle in hay] decides. *)
Definition Substring (needle hay : string) : Prop :=
  ∃ pre post, hay = pre +:+ needle +:+ post.

(** [needle] occurs in [s] only as its ending. *)
Definition OnlyAtEnd (needle s : string) : Prop :=
  ∀ pre post, s = pre +:+ needle +:+ post → post = EmptyString.

End PyStr.

(** ** Exceptions, outcomes and the objects the module works on *)

(** The exceptions the modelled code can raise; both are subclasses of
    Python's [LookupError]. *)
Inductive exn :=
| KeyError (key : string)
| IndexError.

Definition is_LookupError (e : exn) : bool :=
  match e with
  | KeyError _ => true
  | IndexError => true
  end.

(** A run returns a value, raises, or (the [while True] loop only) is still
    running when the fuel is spent. *)
Inductive outcome (A : Type) :=
| Ret (a : A)
| Raise (e : exn)
| OutOfFuel.
Arguments Ret {A} a.
Arguments Raise {A} e.
Arguments OutOfFuel {A}.

(** The layout cursor handed to [create_sqs_widgets] as [positioning]. *)
Module Positioning.
Record t := mk { x : Z; y : Z; width : Z; height : Z; max_width : Z }.

(** [positioning.width = w] *)
Definition set_width (w : Z) (p : t) : t :=
  mk (x p) (y p) w (height p) (max_width p).

(** Modelled from the spec: the Positioning class (its module is not part
    of the sources at hand) and its method [iterate_positioning].  "If
    cursor.x + cursor.width < cursor.maxWidth, set cursor.x +=
    cursor.width; otherwise reset cursor.x = 0 and cursor.y +=
    cursor.height." *)
Definition iterate_positioning (p : t) : t :=
  if x p + width p <? max_width p
  then mk (x p + width p) (y p) (width p) (height p) (max_width p)
  else mk 0 (y p + height p) (width p) (height p) (max_width p).
End Positioning.

(** Responses of the SQS API, with the keys the module reads.  A key that
    is absent from the response dict is [None]. *)
Record ListQueuesResult := {
  QueueUrls : option (list string);
  NextToken : option string
}.

Record ListQueueTagsResult := {
  Tags : option (gmap string string)
}.

(** [boto3.client("sqs", region_name=region)]: the two operations used. *)
Record SqsClient := {
  list_queues : Z → option string → ListQueuesResult;
  list_queue_tags : string → ListQueueTagsResult
}.

(** One entry of the log of API calls. *)
Inductive api_call :=
| ListQueuesCall (region : string) (MaxResults : Z) (token : option string)
| ListQueueTagsCall (region : string) (QueueUrl : string).

(** One row of a widget's ["metrics"] array: strings, and possibly a
    trailing object of rendering options. *)
Inductive metric_field :=
| MStr (s : string)
| MOpts (opts : list (string * string)).

Module Widget.
Record properties := {
  metrics : list (list metric_field);
  view : string;
  stacked : bool;
  region : string;
  period : Z;
  title : string;
  stat : string
}.

Record t := {
  type : string;
  x : Z;
  y : Z;
  height : Z;
  width : Z;
  props : properties
}.
End Widget.

(** ** The state threaded through a run, and its monad *)

Record state := {
  positioning : Positioning.t;
  calls : list api_call
}.

Definition M (A : Type) : Type := state → outcome A * state.

Definition ret {A} (a : A) : M A := λ st, (Ret a, st).

Definition bind {A B} (m : M A) (k : A → M B) : M B :=
  λ st,
    match m st with
    | (Ret a, st') => k a st'
    | (Raise e, st') => (Raise e, st')
    | (OutOfFuel, st') => (OutOfFuel, st')
    end.

Global Instance M_ret : MRet M := @ret.
Global Instance M_bind : MBind M := λ A B k m, bind m k.

Definition raise {A} (e : exn) : M A := λ st, (Raise e, st).

Definition out_of_fuel {A} : M A := λ st, (OutOfFuel, st).

(** An outcome computed without touching the state. *)
Definition lift {A} (o : outcome A) : M A := λ st, (o, st).

Definition get_positioning : M Positioning.t := λ st, (Ret (positioning st), st).

Definition modify_positioning (f : Positioning.t → Positioning.t) : M unit :=
  λ st, (Ret tt, {| positioning := f (positioning st); calls := calls st |}).

Definition log_call (c : api_call) : M unit :=
  λ st, (Ret tt, {| positioning := positioning st; calls := calls st ++ [c] |}).

(** [d[key]] on a dict whose entry for [key] is [entry]. *)
Definition getitem {A} (key : string) (entry : option A) : outcome A :=
  match entry with
  | Some v => Ret v
  | None => Raise (KeyError key)
  end.

(** [l[-1]] *)
Definition getitem_last {A} (l : list A) : outcome A :=
  match last l with
  | Some v => Ret v
  | None => Raise IndexError
  end.

(** [response.update(other)] on the keys of a [ListQueuesResult]. *)
Definition update (response other : ListQueuesResult) : ListQueuesResult :=
  {| QueueUrls := match QueueUrls other with
                  | Some urls => Some urls
                  | None => QueueUrls response
                  end;
     NextToken := match NextToken other with
                  | Some tok => Some tok
                  | None => NextToken response
                  end |}.

(** The truth value of [next_token]: [None] and the empty string are false. *)
Definition truthy (next_token : option string) : bool :=
  match next_token with
  | Some (String _ _) => true
  | Some EmptyString => false
  | None => false
  end.

(** ** The module [cloudwatch_monitoring/sqs.py] *)

Section Sqs.
Import PyStr.

(** [boto3.client("sqs", region_name=region)] *)
Variable boto3_client : string → SqsClient.

(** The table [sqs_queues] imported from [.lookups]: tier-agnostic queue
    name to a dict holding the display title under ["title"]. *)
Variable sqs_queues : gmap string (gmap string string).

Definition call_list_queues (region : string) (MaxResults : Z)
    (token : option string) : M ListQueuesResult :=
  log_call (ListQueuesCall region MaxResults token);;
  mret (list_queues (boto3_client region) MaxResults token).

Definition call_list_queue_tags (region QueueUrl : string)
    : M ListQueueTagsResult :=
  log_call (ListQueueTagsCall region QueueUrl);;
  mret (list_queue_tags (boto3_client region) QueueUrl).

(** The [while True] loop of [get_all_sqs_queue_urls]; one unit of fuel
    per iteration. *)
Fixpoint get_all_loop (fuel : nat) (region : string)
    (response : ListQueuesResult) (next_token : option string)
    : M ListQueuesResult :=
  match fuel with
  | O => out_of_fuel
  | S fuel' =>
      '(response_iterator, response) ←
        (if truthy next_token then
           response_iterator ← call_list_queues region 10 next_token;
           urls ← lift (getitem "QueueUrls" (QueueUrls response));
           more ← lift (getitem "QueueUrls" (QueueUrls response_iterator));
           mret (response_iterator,
                 {| QueueUrls := Some (urls ++ more);
                    NextToken := NextToken response |})
         else
           response_iterator ← call_list_queues region 10 None;
           mret (response_iterator, update response response_iterator));
      match NextToken response_iterator with
      | Some tok => get_all_loop fuel' region response (Some tok)
      | None => mret response
      end
  end.

Definition get_all_sqs_queue_urls (fuel : nat) (region : string)
    : M ListQueuesResult :=
  get_all_loop fuel region {| QueueUrls := None; NextToken := None |} None.

Definition is_iow_queue_filter (queue_url deploy_stage region : string)
    : M bool :=
  if str_in (upper deploy_stage) queue_url then
    queue_tags ← call_list_queue_tags region queue_url;
    match Tags queue_tags with
    | Some tags =>
        match tags !! "wma:organization" with
        | Some organization =>
            if String.eqb "IOW" organization then mret true else mret false
        | None => mret false
        end
    | None => mret false
    end
  else mret false.

(** [queue_url.split('/')[-1]] *)
Definition queue_name_of (queue_url : string) : outcome string :=
  getitem_last (split "/" queue_url).

(** [queue_name.replace(f"-{deploy_stage}", '')] *)
Definition tier_agnostic (deploy_stage queue_name : string) : string :=
  replace ("-" +:+ deploy_stage) "" queue_name.

(** The ["metrics"] array written for one queue. *)
Definition queue_metrics (queue_name : string) : list (list metric_field) :=
  [ [MStr "AWS/SQS"; MStr "ApproximateNumberOfMessagesVisible";
     MStr "QueueName"; MStr queue_name];
    [MStr "."; MStr "ApproximateAgeOfOldestMessage"; MStr "."; MStr ".";
     MOpts [("yAxis", "right")]];
    [MStr "."; MStr "NumberOfMessagesReceived"; MStr "."; MStr ".";
     MOpts [("stat", "Sum")]];
    [MStr "."; MStr "NumberOfMessagesSent"; MStr "."; MStr ".";
     MOpts [("stat", "Sum")]];
    [MStr "."; MStr "NumberOfMessagesDeleted"; MStr "."; MStr "."];
    [MStr "."; MStr "ApproximateNumberOfMessagesDelayed"; MStr ".";
     MStr "."] ].

(** The dict literal [queue_widget], read off the cursor [p]. *)
Definition queue_widget (region queue_name queue_title : string)
    (p : Positioning.t) : Widget.t :=
  {| Widget.type := "metric";
     Widget.x := Positioning.x p;
     Widget.y := Positioning.y p;
     Widget.height := Positioning.height p + 3;
     Widget.width := Positioning.width p;
     Widget.props :=
       {| Widget.metrics := queue_metrics queue_name;
          Widget.view := "timeSeries";
          Widget.stacked := false;
          Widget.region := region;
          Widget.period := 60;
          Widget.title := queue_title;
          Widget.stat := "Average" |} |}.

(** The body of the [for queue_url in ...] loop of [create_sqs_widgets]. *)
Definition widget_step (region deploy_stage : string)
    (sqs_widgets : list Widget.t) (queue_url : string)
    : M (list Widget.t) :=
  is_iow ← is_iow_queue_filter queue_url deploy_stage region;
  if is_iow : bool then
    queue_name ← lift (queue_name_of queue_url);
    let tier_agnostic_queue_name := tier_agnostic deploy_stage queue_name in
    entry ← lift (getitem tier_agnostic_queue_name
                    (sqs_queues !! tier_agnostic_queue_name));
    queue_title ← lift (getitem "title" (entry !! "title"));
    modify_positioning (Positioning.set_width 12);;
    p ← get_positioning;
    let widget := queue_widget region queue_name queue_title p in
    modify_positioning Positioning.iterate_positioning;;
    mret (sqs_widgets ++ [widget])
  else mret sqs_widgets.

Fixpoint widget_loop (region deploy_stage : string)
    (queue_urls : list string) (sqs_widgets : list Widget.t)
    : M (list Widget.t) :=
  match queue_urls with
  | [] => mret sqs_widgets
  | queue_url :: rest =>
      sqs_widgets ← widget_step region deploy_stage sqs_widgets queue_url;
      widget_loop region deploy_stage rest sqs_widgets
  end.

(** [fuel] bounds the iterations of the pagination loop. *)
Definition create_sqs_widgets (fuel : nat) (region deploy_stage : string)
    : M (list Widget.t) :=
  all_sqs_queue_urls_response ← get_all_sqs_queue_urls fuel region;
  queue_urls ← lift (getitem "QueueUrls"
                       (QueueUrls all_sqs_queue_urls_response));
  widget_loop region deploy_stage queue_urls [].

End Sqs.

(** ** Notions used to state the properties *)

(** The tag condition of the filter: the response has a tag collection in
    which ["wma:organization"] is exactly ["IOW"]. *)
Definition TaggedIOW (r : ListQueueTagsResult) : Prop :=
  ∃ tags, Tags r = Some tags ∧ tags !! "wma:organization" = Some "IOW".

(** The state after one more API call has been logged. *)
Definition logged (c : api_call) (st : state) : state :=
  {| positioning := positioning st; calls := calls st ++ [c] |}.

(** The number of positions of [hay] at which [needle] starts. *)
Fixpoint occurrences (needle hay : string) : nat :=
  ((if String.prefix needle hay then 1 else 0) +
   match hay with
   | EmptyString => 0
   | String _ hay' => occurrences needle hay'
   end)%nat.

(** Follows the specification's words, "name with the deploy-tier suffix
    removed": [s] without its ending [suffix], and [s] itself when it does
    not end that way. *)
Fixpoint removesuffix (suffix s : string) : string :=
  if String.eqb s suffix then EmptyString
  else match s with
       | EmptyString => EmptyString
       | String c s' => String c (removesuffix suffix s')
       end.

(** The state after the calls [cs] have been logged. *)
Definition logged_all (cs : list api_call) (st : state) : state :=
  {| positioning := positioning st; calls := calls st ++ cs |}.

(** A listing capability that serves [pages]: the first page answers the
    request made with [tok], and every further page answers the request made
    with the continuation token of the page before it.  [tokens] lists those
    continuation tokens; the last page carries none. *)
Inductive Serves (client : SqsClient)
  : option string → list (list string) → list string → Prop :=
| Serves_last tok page :
    list_queues client 10 tok
      = {| QueueUrls := Some page; NextToken := None |} →
    Serves client tok [page] []
| Serves_next tok page next pages tokens :
    list_queues client 10 tok
      = {| QueueUrls := Some page; NextToken := Some next |} →
    Serves client (Some next) pages tokens →
    Serves client tok (page :: pages) (next :: tokens).

(** The pages a listing of [ids] is cut into when every page but the last
    holds [page_size] identifiers; [fuel] bounds the number of pages. *)
Fixpoint chunks_go (fuel page_size : nat) (ids : list string)
    : list (list string) :=
  match fuel, ids with
  | S fuel', _ :: _ =>
      take page_size ids :: chunks_go fuel' page_size (drop page_size ids)
  | _, _ => []
  end.

Definition chunks (page_size : nat) (ids : list string) : list (list string) :=
  chunks_go (length ids) page_size ids.

(** The least number of pages of [d] identifiers that hold [n] of them. *)
Definition div_ceil (n d : nat) : nat := ((n + d - 1) / d)%nat.

(** The dashboard body format reads a ["."] in a metrics row as the field at
    the same position of the row above. *)
Definition resolve_field (above : option metric_field) (f : metric_field)
    : metric_field :=
  match f, above with
  | MStr s, Some a => if String.eqb s "." then a else f
  | _, _ => f
  end.

Fixpoint resolve_row (above row : list metric_field) : list metric_field :=
  match row with
  | [] => []
  | f :: row' => resolve_field (head above) f :: resolve_row (tail above) row'
  end.

Fixpoint resolve_rows (above : list metric_field)
    (rows : list (list metric_field)) : list (list metric_field) :=
  match rows with
  | [] => []
  | row :: rows' =>
      let resolved := resolve_row above row in
      resolved :: resolve_rows resolved rows'
  end.

(** The fields of a metrics row: namespace, metric name, dimension name,
    dimension value, and the rendering options when there are any. *)
Definition metric_name (row : list metric_field) : option metric_field :=
  row !! 1%nat.

Definition dimension_name (row : list metric_field) : option metric_field :=
  row !! 2%nat.

Definition dimension_value (row : list metric_field) : option metric_field :=
  row !! 3%nat.

Fixpoint assoc (key : string) (kvs : list (string * string)) : option string :=
  match kvs with
  | [] => None
  | (k, v) :: kvs' => if String.eqb k key then Some v else assoc key kvs'
  end.

Definition row_option (key : string) (row : list metric_field)
    : option string :=
  match row !! 4%nat with
  | Some (MOpts opts) => assoc key opts
  | _ => None
  end.

(** The statistic a row is charted with: its own ["stat"] option, and the
    widget's ["stat"] when the row has none. *)
Definition row_stat (widget_stat : string) (row : list metric_field) : string :=
  match row_option "stat" row with
  | Some s => s
  | None => widget_stat
  end.

(** ** Concrete runs *)

Module Scenario.

Definition region : string := "us-west-2".

Definition error_queue_url : string :=
  "https://host/579777464052/aqts-capture-error-queue-TEST".

Definition dev_queue_url : string :=
  "https://host/579777464052/aqts-capture-error-queue-DEV".

Definition unlisted_queue_url : string :=
  "https://host/579777464052/aqts-capture-unlisted-queue-TEST".

Definition twice_queue_name : string := "aqts-capture-TEST-drain-queue-TEST".

Definition twice_queue_url : string :=
  "https://host/579777464052/" +:+ twice_queue_name.

(** An identifier without any path separator. *)
Definition bare_queue_id : string := "aqts-capture-error-queue-TEST".

Definition iow : gmap string string := {[ "wma:organization" := "IOW" ]}.

Definition queue_tags : gmap string (gmap string string) :=
  {[ error_queue_url := iow;
     unlisted_queue_url := iow;
     twice_queue_url := iow;
     bare_queue_id := iow ]}.

(** A client that answers from tables: [first] to the request without a
    token, [later] by token, and the tags of a queue from [queue_tags]. *)
Definition table_client (first : ListQueuesResult)
    (later : gmap string ListQueuesResult) : string → SqsClient :=
  λ _,
    {| list_queues := λ _ token,
         match token with
         | None => first
         | Some tok =>
             default {| QueueUrls := None; NextToken := None |} (later !! tok)
         end;
       list_queue_tags := λ queue_url, {| Tags := queue_tags !! queue_url |} |}.

Definition sqs_queues : gmap string (gmap string string) :=
  {[ "aqts-capture-error-queue" := {[ "title" := "Error Queue" ]} ]}.

(** The starting values of [dashboard.py]: x, y = 0, 0; width, height = 3, 3;
    max_width = 12. *)
Definition start : state :=
  {| positioning := Positioning.mk 0 0 3 3 12; calls := [] |}.

(** Two pages of one queue each, linked by the token ["page-2"]. *)
Definition two_pages : string → SqsClient :=
  table_client
    {| QueueUrls := Some [dev_queue_url]; NextToken := Some "page-2" |}
    {[ "page-2" :=
         {| QueueUrls := Some [error_queue_url]; NextToken := None |} ]}.

(** Two queues in one page, only the second in the tier and tagged. *)
Definition one_page : string → SqsClient :=
  table_client
    {| QueueUrls := Some [dev_queue_url; error_queue_url];
       NextToken := None |} ∅.

(** Two pages linked by the empty string as continuation token. *)
Definition empty_token : string → SqsClient :=
  table_client
    {| QueueUrls := Some [dev_queue_url]; NextToken := Some "" |}
    {[ "" := {| QueueUrls := Some [error_queue_url]; NextToken := None |} ]}.

(** A region without queues: the first page has no key at all. *)
Definition no_queues : string → SqsClient :=
  table_client {| QueueUrls := None; NextToken := None |} ∅.

(** A tagged queue of the tier that the title table does not know, between
    two others. *)
Definition with_unlisted : string → SqsClient :=
  table_client
    {| QueueUrls := Some [error_queue_url; unlisted_queue_url; dev_queue_url];
       NextToken := None |} ∅.

(** A single identifier without a path separator, tagged and in the tier. *)
Definition bare : string → SqsClient :=
  table_client {| QueueUrls := Some [bare_queue_id]; NextToken := None |} ∅.

End Scenario.

(** ** What the loop of [create_sqs_widgets] does with one URL *)

(** The three nested tests of [is_iow_queue_filter] on the tag response. *)
Definition tagged_iow (r : ListQueueTagsResult) : bool :=
  match Tags r with
  | Some tags =>
      match tags !! "wma:organization" with
      | Some organization => String.eqb "IOW" organization
      | None => false
      end
  | None => false
  end.

(** The answer of [is_iow_queue_filter] for a URL. *)
Definition eligible (client : SqsClient) (deploy_stage queue_url : string)
    : bool :=
  PyStr.str_in (PyStr.upper deploy_stage) queue_url
  && tagged_iow (list_queue_tags client queue_url).

(** The name [queue_url.split('/')[-1]] when the subscript succeeds. *)
Definition name_of (queue_url : string) : option string :=
  match queue_name_of queue_url with
  | Ret name => Some name
  | _ => None
  end.

(** The title [sqs_queues[tier_agnostic_queue_name]['title']] of a URL, when
    both subscripts succeed. *)
Definition title_of (sqs_queues : gmap string (gmap string string))
    (deploy_stage queue_url : string) : option string :=
  match name_of queue_url with
  | Some name =>
      match sqs_queues !! tier_agnostic deploy_stage name with
      | Some entry => entry !! "title"
      | None => None
      end
  | None => None
  end.

(** The queue a widget charts: the dimension value of its first metrics
    row. *)
Definition widget_queue (w : Widget.t) : option metric_field :=
  match Widget.metrics (Widget.props w) with
  | row :: _ => dimension_value row
  | [] => None
  end.

(** Further concrete listings and tables. *)
Module Catalogue.
Import Scenario.

(** The second page, announced by the token ["page-2"], has no key at all. *)
Definition second_page_bare : string → SqsClient :=
  table_client
    {| QueueUrls := Some [dev_queue_url]; NextToken := Some "page-2" |} ∅.

(** A table whose entry for the error queue has no ["title"]. *)
Definition untitled : gmap string (gmap string string) :=
  {[ "aqts-capture-error-queue" := {[ "label" := "Error Queue" ]} ]}.

(** Three queues in one page: the error queue of the tier, a queue of
    another tier, and the error queue once more. *)
Definition three_queues : string → SqsClient :=
  table_client
    {| QueueUrls := Some [error_queue_url; dev_queue_url; error_queue_url];
       NextToken := None |} ∅.

(** One page with a queue of another tier only. *)
Definition other_tier : string → SqsClient :=
  table_client
    {| QueueUrls := Some [dev_queue_url]; NextToken := None |} ∅.

End Catalogue.

(** ** Running monadic code *)

Arguments String.eqb : simpl never.
Arguments PyStr.str_in : simpl never.
Arguments PyStr.upper : simpl never.
Arguments PyStr.split : simpl never.
Arguments PyStr.replace : simpl never.

Ltac run :=
  unfold mbind, M_bind, bind, mret, M_ret, ret, lift, raise, out_of_fuel,
    log_call, get_positioning, modify_positioning; simpl.

(** ** Facts about the string operations *)

Section StringFacts.
Import PyStr.

Lemma app_cons c (s t : string) : String c s +:+ t = String c (s +:+ t).
Proof. reflexivity. Qed.

Lemma app_empty_l (t : string) : "" +:+ t = t.
Proof. reflexivity. Qed.

Lemma app_empty_r (s : string) : s +:+ "" = s.
Proof. induction s as [|c s IH]; [done|]. by rewrite app_cons, IH. Qed.

Lemma app_assoc_str (s t u : string) : (s +:+ t) +:+ u = s +:+ t +:+ u.
Proof.
  induction s as [|c s IH]; [done|]. by rewrite !app_cons, IH.
Qed.

Lemma length_app_str (s t : string) :
  String.length (s +:+ t) = (String.length s + String.length t)%nat.
Proof.
  induction s as [|c s IH]; [done|]. rewrite app_cons. simpl. by rewrite IH.
Qed.

Lemma prefix_spec (p s : string) :
  String.prefix p s = true ↔ ∃ t, s = p +:+ t.
Proof.
  revert s. induction p as [|c p IH]; intros s.
  - split; [intros _; exists s; reflexivity | intros _; by destruct s].
  - destruct s as [|d s]; simpl.
    + split; [done | intros [t Ht]; discriminate].
    + destruct (ascii_dec c d) as [->|Hne].
      * rewrite IH. split; intros [t Ht]; exists t.
        -- by rewrite app_cons, Ht.
        -- rewrite app_cons in Ht. congruence.
      * split; [done | intros [t Ht]]. rewrite app_cons in Ht. congruence.
Qed.

Lemma str_in_nil needle : str_in needle "" = String.prefix needle "" || false.
Proof. reflexivity. Qed.

Lemma str_in_cons needle c hay :
  str_in needle (String c hay)
    = String.prefix needle (String c hay) || str_in needle hay.
Proof. reflexivity. Qed.

Lemma str_in_spec (needle hay : string) :
  str_in needle hay = true ↔ Substring needle hay.
Proof.
  induction hay as [|c hay IH].
  - rewrite str_in_nil, orb_false_r, prefix_spec. split.
    + intros [t Ht]. exists "", t. exact Ht.
    + intros [pre [post H]]. destruct pre as [|d pre]; [exists post; exact H|].
      rewrite app_cons in H. discriminate.
  - rewrite str_in_cons, orb_true_iff, prefix_spec, IH. split.
    + intros [[t Ht]|[pre [post H]]].
      * exists "", t. exact Ht.
      * exists (String c pre), post. by rewrite app_cons, H.
    + intros [pre [post H]]. destruct pre as [|d pre].
      * left. exists post. exact H.
      * right. rewrite app_cons in H. exists pre, post. congruence.
Qed.

Lemma str_in_false (needle hay : string) :
  str_in needle hay = false ↔ ¬ Substring needle hay.
Proof.
  rewrite <- str_in_spec. destruct (str_in needle hay); naive_solver.
Qed.

End StringFacts.

(** ** The layout cursor *)

Section Cursor.
Import Positioning.

(** C6: one call of [iterate_positioning] moves [x] right by [width] when
    [x + width < max_width], and otherwise puts [x] back to 0 and moves [y]
    down by [height]; the sizes are left as they are.  The two cursors of
    the specification move to (0, 3) and to (3, 0). *)
Theorem iterate_positioning_spec (p : Positioning.t) :
  (x p + width p < max_width p →
     x (iterate_positioning p) = x p + width p ∧
     y (iterate_positioning p) = y p) ∧
  (¬ x p + width p < max_width p →
     x (iterate_positioning p) = 0 ∧
     y (iterate_positioning p) = y p + height p) ∧
  width (iterate_positioning p) = width p ∧
  height (iterate_positioning p) = height p ∧
  max_width (iterate_positioning p) = max_width p ∧
  iterate_positioning (mk 0 0 12 3 12) = mk 0 3 12 3 12 ∧
  iterate_positioning (mk 0 0 3 3 12) = mk 3 0 3 3 12.
Proof.
  unfold iterate_positioning.
  destruct (Z.ltb_spec (x p + width p) (max_width p)) as [Hlt|Hge]; simpl;
    repeat split; try reflexivity; intros; lia.
Qed.

End Cursor.

(** ** The eligibility filter *)

Section Filter.
Import PyStr.
Variable boto3_client : string → SqsClient.

Lemma is_iow_queue_filter_run queue_url deploy_stage region st :
  is_iow_queue_filter boto3_client queue_url deploy_stage region st =
    if str_in (upper deploy_stage) queue_url
    then (Ret (match Tags (list_queue_tags (boto3_client region) queue_url) with
               | Some tags =>
                   match tags !! "wma:organization" with
                   | Some organization => String.eqb "IOW" organization
                   | None => false
                   end
               | None => false
               end),
          logged (ListQueueTagsCall region queue_url) st)
    else (Ret false, st).
Proof.
  unfold is_iow_queue_filter, call_list_queue_tags.
  destruct (str_in (upper deploy_stage) queue_url); [|reflexivity].
  run. destruct (Tags _) as [tags|]; [|reflexivity].
  destruct (tags !! "wma:organization") as [o|]; [|reflexivity].
  by destruct (String.eqb "IOW" o).
Qed.

(** C2: the filter always returns a boolean, never an error; it is true
    exactly when the upper-cased deploy stage occurs in the queue URL and
    the tags fetched for the URL map ["wma:organization"] to ["IOW"].  A
    response without a tag collection, a collection without the key, and
    a different value all give false. *)
Theorem is_iow_queue_filter_iff queue_url deploy_stage region st :
  let queue_tags := list_queue_tags (boto3_client region) queue_url in
  ∃ b st',
    is_iow_queue_filter boto3_client queue_url deploy_stage region st
      = (Ret b, st') ∧
    (b = true ↔
       Substring (upper deploy_stage) queue_url ∧ TaggedIOW queue_tags) ∧
    (Tags queue_tags = None → b = false) ∧
    (∀ tags, Tags queue_tags = Some tags →
       tags !! "wma:organization" = None → b = false) ∧
    (∀ tags organization, Tags queue_tags = Some tags →
       tags !! "wma:organization" = Some organization →
       organization ≠ "IOW" → b = false).
Proof.
  intros queue_tags. rewrite is_iow_queue_filter_run. fold queue_tags.
  unfold TaggedIOW.
  destruct (str_in (upper deploy_stage) queue_url) eqn:Hin.
  - apply str_in_spec in Hin. eexists _, _. split; [reflexivity|].
    destruct (Tags queue_tags) as [tags|] eqn:Htags.
    + destruct (tags !! "wma:organization") as [o|] eqn:Ho.
      * destruct (String.eqb_spec "IOW" o) as [<-|Hne].
        -- repeat split; eauto; try congruence.
        -- repeat split; try congruence.
           intros (_ & tags' & ? & ?). congruence.
      * repeat split; try congruence.
        intros (_ & tags' & ? & ?). congruence.
    + repeat split; try congruence.
      intros (_ & tags' & ? & ?). congruence.
  - apply str_in_false in Hin. eexists _, _. split; [reflexivity|].
    repeat split; try done. intros [? _]. contradiction.
Qed.

(** C8: when the upper-cased deploy stage does not occur in the queue URL,
    the filter answers false and leaves the state as it was: the log of API
    calls gains no entry, so no tags were fetched. *)
Theorem is_iow_queue_filter_short_circuit queue_url deploy_stage region st :
  ¬ Substring (upper deploy_stage) queue_url →
  is_iow_queue_filter boto3_client queue_url deploy_stage region st
    = (Ret false, st) ∧
  calls (snd (is_iow_queue_filter boto3_client queue_url deploy_stage
                region st)) = calls st.
Proof.
  intros Hno%str_in_false. rewrite is_iow_queue_filter_run, Hno. done.
Qed.

(** The converse: when the stage does occur, exactly one tag lookup, for
    this URL, is logged. *)
Lemma is_iow_queue_filter_fetches queue_url deploy_stage region st :
  Substring (upper deploy_stage) queue_url →
  calls (snd (is_iow_queue_filter boto3_client queue_url deploy_stage
                region st))
    = calls st ++ [ListQueueTagsCall region queue_url].
Proof.
  intros Hin%str_in_spec. rewrite is_iow_queue_filter_run, Hin. done.
Qed.

End Filter.

(** ** Queue names *)

Section Names.
Import PyStr.

Lemma split_cons sep c s :
  split sep (String c s) =
    if Ascii.eqb c sep then "" :: split sep s
    else match split sep s with
         | cur :: rest => String c cur :: rest
         | [] => [String c ""]
         end.
Proof. reflexivity. Qed.

Lemma split_nonempty sep s : split sep s ≠ [].
Proof.
  destruct s as [|c s]; [done|]. rewrite split_cons.
  destruct (Ascii.eqb c sep); [done|]. by destruct (split sep s).
Qed.

Lemma str_in_cons_false needle c s :
  str_in needle (String c s) = false → str_in needle s = false.
Proof. rewrite str_in_cons. by intros [_ ?]%orb_false_iff. Qed.

(** Without a separator the whole string is the only part. *)
Lemma split_no_sep sep s :
  str_in (String sep "") s = false → split sep s = [s].
Proof.
  induction s as [|c s IH]; [done|]. intros Hno.
  rewrite split_cons, (IH (str_in_cons_false _ _ _ Hno)).
  destruct (Ascii.eqb_spec c sep) as [->|Hne]; [|done].
  rewrite str_in_cons in Hno. apply orb_false_iff in Hno as [Hp _].
  assert (String.prefix (String sep "") (String sep s) = true) as Ht
    by (apply prefix_spec; by exists s).
  congruence.
Qed.

Lemma last_cons_nonempty {A} (a : A) (l : list A) :
  l ≠ [] → last (a :: l) = last l.
Proof. by destruct l. Qed.

(** A separator starts a new part: there are at least two. *)
Lemma split_two_parts sep pre t :
  ∃ a b rest, split sep (pre +:+ String sep t) = a :: b :: rest.
Proof.
  induction pre as [|c pre (a & b & rest & IH)].
  - rewrite app_empty_l, split_cons, Ascii.eqb_refl.
    destruct (split sep t) as [|b rest] eqn:Hs.
    + by apply split_nonempty in Hs.
    + by exists "", b, rest.
  - rewrite app_cons, split_cons, IH. destruct (Ascii.eqb c sep).
    + by exists "", a, (b :: rest).
    + by exists (String c a), b, rest.
Qed.

(** The last part only depends on what follows a separator. *)
Lemma split_last_after sep pre t :
  last (split sep (pre +:+ String sep t)) = last (split sep t).
Proof.
  induction pre as [|c pre IH].
  - rewrite app_empty_l, split_cons, Ascii.eqb_refl.
    apply last_cons_nonempty, split_nonempty.
  - rewrite app_cons, split_cons, <- IH.
    destruct (split_two_parts sep pre t) as (a & b & rest & ->).
    by destruct (Ascii.eqb c sep).
Qed.

(** A string with a separator has a last one. *)
Lemma final_separator sep s :
  Substring (String sep "") s →
  ∃ pre name, s = pre +:+ String sep name ∧
              str_in (String sep "") name = false.
Proof.
  induction s as [|c s IH]; intros Hs.
  - destruct Hs as (pre & post & H). by destruct pre.
  - destruct (str_in (String sep "") s) eqn:Hin.
    + apply str_in_spec in Hin. destruct (IH Hin) as (pre & name & -> & Hn).
      by exists (String c pre), name.
    + destruct Hs as (pre & post & H). destruct pre as [|d pre].
      * injection H as Hc Hs. subst c. by exists "", s.
      * rewrite app_cons in H. injection H as Hc Hs.
        apply str_in_false in Hin. destruct Hin. by exists pre, post.
Qed.

Lemma replace_go_skip old new p t :
  replace_go old new (String.length p) (p +:+ t) = replace_go old new 0 t.
Proof.
  induction p as [|c p IH]; [by destruct t|]. rewrite app_cons. apply IH.
Qed.

Lemma prefix_refl_app old t : String.prefix old (old +:+ t) = true.
Proof. apply prefix_spec. by exists t. Qed.

(** One occurrence at the very start is replaced and the scan resumes
    behind it. *)
Lemma replace_go_match c o new t :
  replace_go (String c o) new 0 (String c o +:+ t)
    = new +:+ replace_go (String c o) new 0 t.
Proof.
  rewrite app_cons. cbn [replace_go]. rewrite <- app_cons, prefix_refl_app.
  f_equal.
  replace (String.length (String c o) - 1)%nat with (String.length o)
    by (simpl; lia).
  apply replace_go_skip.
Qed.

Lemma occurrences_cons needle c s :
  occurrences needle (String c s) =
    ((if String.prefix needle (String c s) then 1 else 0)
     + occurrences needle s)%nat.
Proof. reflexivity. Qed.

Lemma occurrences_at_end needle base :
  (1 ≤ occurrences needle (base +:+ needle))%nat.
Proof.
  induction base as [|c base IH].
  - rewrite app_empty_l. destruct needle as [|c n]; [simpl; lia|].
    rewrite occurrences_cons.
    assert (String.prefix (String c n) (String c n) = true) as ->
      by (apply prefix_spec; exists ""; by rewrite app_empty_r).
    lia.
  - rewrite app_cons, occurrences_cons. lia.
Qed.

(** When [old] occurs only as the ending, [replace] rewrites that ending. *)
Lemma replace_go_only_suffix c o new base :
  occurrences (String c o) (base +:+ String c o) = 1%nat →
  replace_go (String c o) new 0 (base +:+ String c o) = base +:+ new.
Proof.
  induction base as [|d base IH]; intros Hocc.
  - rewrite !app_empty_l. rewrite <- (app_empty_r (String c o)) at 2.
    rewrite replace_go_match. by rewrite app_empty_r.
  - rewrite app_cons in *. rewrite occurrences_cons in Hocc.
    pose proof (occurrences_at_end (String c o) base) as Hge.
    cbn [replace_go].
    destruct (String.prefix (String c o) (String d (base +:+ String c o)));
      [lia|].
    rewrite IH by lia. done.
Qed.

(** Without an occurrence, [replace] changes nothing. *)
Lemma replace_go_absent c o new s :
  occurrences (String c o) s = 0%nat →
  replace_go (String c o) new 0 s = s.
Proof.
  induction s as [|d s IH]; [done|]. rewrite occurrences_cons. intros Hocc.
  cbn [replace_go]. destruct (String.prefix (String c o) (String d s));
    [lia|]. rewrite IH by lia. done.
Qed.

Lemma queue_name_of_after pre name :
  str_in "/" name = false →
  queue_name_of (pre +:+ "/" +:+ name) = Ret name.
Proof.
  intros Hno. unfold queue_name_of, getitem_last.
  change (pre +:+ "/" +:+ name) with (pre +:+ String "/" name).
  by rewrite split_last_after, (split_no_sep _ _ Hno).
Qed.

(** Every URL has a name: [split] never returns an empty list, so the index
    [-1] is always in range. *)
Lemma queue_name_of_total queue_url :
  ∃ name, queue_name_of queue_url = Ret name.
Proof.
  unfold queue_name_of, getitem_last.
  destruct (split "/" queue_url) as [|a l] eqn:Hs.
  { by apply split_nonempty in Hs. }
  destruct (last (a :: l)) as [name|] eqn:Hl; [by exists name|].
  by apply last_None in Hl.
Qed.

Lemma tier_agnostic_only_suffix deploy_stage base :
  occurrences ("-" +:+ deploy_stage) (base +:+ "-" +:+ deploy_stage) = 1%nat →
  tier_agnostic deploy_stage (base +:+ "-" +:+ deploy_stage) = base.
Proof.
  intros Hocc. unfold tier_agnostic, replace.
  change ("-" +:+ deploy_stage) with (String "-" deploy_stage) in *.
  rewrite replace_go_only_suffix by done. apply app_empty_r.
Qed.

(** C5, as the code has it: the name of a URL with a path separator is what
    follows the final ['/']; the tier-agnostic name is the name with every
    occurrence of ["-" + deploy_stage] taken out by [str.replace], which is
    the name without that ending when the ending is the only occurrence, and
    the name itself when there is none.  The URL of the specification gives
    ["aqts-capture-error-queue-TEST"] and ["aqts-capture-error-queue"]. *)
Theorem queue_names_derived queue_url deploy_stage :
  Substring "/" queue_url →
  ∃ pre name,
    queue_url = pre +:+ "/" +:+ name ∧
    ¬ Substring "/" name ∧
    queue_name_of queue_url = Ret name ∧
    tier_agnostic deploy_stage name
      = replace ("-" +:+ deploy_stage) "" name ∧
    (∀ base, name = base +:+ "-" +:+ deploy_stage →
       occurrences ("-" +:+ deploy_stage) name = 1%nat →
       tier_agnostic deploy_stage name = base) ∧
    (occurrences ("-" +:+ deploy_stage) name = 0%nat →
       tier_agnostic deploy_stage name = name) ∧
    queue_name_of "https://host/579777464052/aqts-capture-error-queue-TEST"
      = Ret "aqts-capture-error-queue-TEST" ∧
    tier_agnostic "TEST" "aqts-capture-error-queue-TEST"
      = "aqts-capture-error-queue".
Proof.
  intros (pre & name & -> & Hno)%final_separator.
  exists pre, name. split; [reflexivity|].
  split; [by apply str_in_false|].
  split; [by apply queue_name_of_after|].
  split; [reflexivity|].
  split; [|split; [|split; reflexivity]].
  - intros base -> Hocc. by apply tier_agnostic_only_suffix.
  - intros Hocc. unfold tier_agnostic, replace.
    change ("-" +:+ deploy_stage) with (String "-" deploy_stage) in *.
    by apply replace_go_absent.
Qed.

(** C9, as the code has it: a URL without a path separator raises nothing
    when its name is derived; [split] returns the URL as the only part and
    the name is the whole URL. *)
Theorem queue_name_of_no_separator queue_url :
  ¬ Substring "/" queue_url →
  queue_name_of queue_url = Ret queue_url ∧
  ∀ e, queue_name_of queue_url ≠ Raise e.
Proof.
  intros Hno%str_in_false. unfold queue_name_of, getitem_last.
  by rewrite (split_no_sep _ _ Hno).
Qed.

End Names.

(** ** Pagination *)

Section Pagination.
Variable boto3_client : string → SqsClient.
Variable sqs_queues : gmap string (gmap string string).
Variable region : string.

Let client := boto3_client region.

Lemma logged_logged_all c cs st :
  logged_all cs (logged c st) = logged_all (c :: cs) st.
Proof. unfold logged_all, logged. simpl. by rewrite <- app_assoc. Qed.

(** One iteration that takes the branch without a token. *)
Lemma get_all_loop_first fuel response next_token st :
  truthy next_token = false →
  get_all_loop boto3_client (S fuel) region response next_token st =
    let page := list_queues client 10 None in
    let st1 := logged (ListQueuesCall region 10 None) st in
    match NextToken page with
    | Some tok =>
        get_all_loop boto3_client fuel region (update response page)
          (Some tok) st1
    | None => (Ret (update response page), st1)
    end.
Proof.
  intros Hf. cbn [get_all_loop]. rewrite Hf. unfold call_list_queues. run.
  fold client. by destruct (NextToken (list_queues client 10 None)).
Qed.

(** One iteration that takes the branch with a token. *)
Lemma get_all_loop_next fuel response tok st :
  truthy (Some tok) = true →
  get_all_loop boto3_client (S fuel) region response (Some tok) st =
    let page := list_queues client 10 (Some tok) in
    let st1 := logged (ListQueuesCall region 10 (Some tok)) st in
    match QueueUrls response, QueueUrls page with
    | Some urls, Some more =>
        let response' := {| QueueUrls := Some (urls ++ more);
                            NextToken := NextToken response |} in
        match NextToken page with
        | Some tok' =>
            get_all_loop boto3_client fuel region response' (Some tok') st1
        | None => (Ret response', st1)
        end
    | _, _ => (Raise (KeyError "QueueUrls"), st1)
    end.
Proof.
  intros Ht. cbn [get_all_loop]. rewrite Ht. unfold call_list_queues. run.
  fold client. destruct (QueueUrls response) as [urls|]; [|reflexivity].
  simpl. destruct (QueueUrls (list_queues client 10 (Some tok))) as [more|];
    [|reflexivity].
  simpl. by destruct (NextToken (list_queues client 10 (Some tok))).
Qed.

Lemma div_ceil_step n d :
  (0 < d)%nat → (0 < n)%nat → div_ceil n d = S (div_ceil (n - d) d).
Proof.
  intros Hd Hn. unfold div_ceil. destruct (le_lt_dec d n) as [Hle|Hlt].
  - replace (n + d - 1)%nat with ((n - d + d - 1) + 1 * d)%nat by lia.
    rewrite Nat.div_add by lia. lia.
  - replace (n - d)%nat with 0%nat by lia.
    rewrite (Nat.div_small (0 + d - 1) d) by lia.
    symmetry. apply (Nat.div_unique _ _ 1%nat (n - 1)%nat); lia.
Qed.

(** Cutting into pages loses nothing and makes the least number of pages. *)
Lemma chunks_go_spec page_size fuel :
  (0 < page_size)%nat →
  ∀ ids, (length ids ≤ fuel)%nat →
    concat (chunks_go fuel page_size ids) = ids ∧
    length (chunks_go fuel page_size ids) = div_ceil (length ids) page_size.
Proof.
  intros Hp. induction fuel as [|fuel IH]; intros ids Hlen.
  - destruct ids; [|simpl in Hlen; lia]. split; [done|].
    unfold div_ceil. simpl. symmetry. apply Nat.div_small. lia.
  - destruct ids as [|id ids].
    { split; [done|]. unfold div_ceil. simpl. symmetry.
      apply Nat.div_small. lia. }
    cbn [chunks_go].
    destruct (IH (drop page_size (id :: ids))) as [Hcat Hnum].
    { rewrite length_drop. simpl in *. lia. }
    split.
    + cbn [concat]. rewrite Hcat. apply take_drop.
    + change (S (length (chunks_go fuel page_size
                           (drop page_size (id :: ids))))
              = div_ceil (length (id :: ids)) page_size).
      rewrite Hnum, length_drop.
      symmetry. apply div_ceil_step; simpl; lia.
Qed.

Lemma truthy_nonempty tok : tok ≠ "" → truthy (Some tok) = true.
Proof. by destruct tok. Qed.

(** From a non-empty token on, the loop appends the pages still to come. *)
Lemma get_all_loop_serves pages :
  ∀ tokens tok fuel response acc st,
    tok ≠ "" →
    Serves client (Some tok) pages tokens →
    Forall (λ t, t ≠ "") tokens →
    QueueUrls response = Some acc →
    (length pages ≤ fuel)%nat →
    get_all_loop boto3_client fuel region response (Some tok) st =
      (Ret {| QueueUrls := Some (acc ++ concat pages);
              NextToken := NextToken response |},
       logged_all (map (ListQueuesCall region 10) (map Some (tok :: tokens)))
         st).
Proof.
  induction pages as [|page pages IH];
    intros tokens tok fuel response acc st Htok Hs Hne Hacc Hfuel.
  { inversion Hs. }
  destruct fuel as [|fuel]; [simpl in Hfuel; lia|].
  rewrite get_all_loop_next by by apply truthy_nonempty.
  rewrite Hacc. inversion Hs as [? ? Hpage|? ? next ? toks Hpage Hrest];
    subst; rewrite Hpage; simpl.
  - by rewrite app_nil_r.
  - inversion Hne as [|? ? Hnext Hne']; subst.
    rewrite (IH toks next fuel
               {| QueueUrls := Some (acc ++ page);
                  NextToken := NextToken response |}
               (acc ++ page) _ Hnext Hrest Hne' eq_refl)
      by (simpl in Hfuel; lia).
    simpl. rewrite logged_logged_all. by rewrite <- app_assoc.
Qed.

(** While the token is empty the loop asks for the first page again. *)
Lemma get_all_loop_empty_token urls fuel :
  list_queues client 10 None
    = {| QueueUrls := urls; NextToken := Some "" |} →
  ∀ response next_token st,
    truthy next_token = false →
    fst (get_all_loop boto3_client fuel region response next_token st)
      = OutOfFuel.
Proof.
  intros Hpage. induction fuel as [|fuel IH]; intros response tok st Hf.
  - reflexivity.
  - rewrite get_all_loop_first by done. rewrite Hpage. simpl. by apply IH.
Qed.

(** C1, as the code has it: when the listing capability serves pages linked
    by non-empty continuation tokens, [get_all_sqs_queue_urls] returns, after
    one call per page, a response whose ["QueueUrls"] is the concatenation of
    the pages: every identifier once, by page and then by position in the
    page.  The cursor is not touched.  When the pages are a listing of N
    identifiers cut every [page_size], the result is that listing and the
    pages are ceil(N / page_size). *)
Theorem get_all_sqs_queue_urls_complete pages tokens fuel st :
  Serves client None pages tokens →
  Forall (λ t, t ≠ "") tokens →
  (length pages ≤ fuel)%nat →
  ∃ response st',
    get_all_sqs_queue_urls boto3_client fuel region st = (Ret response, st') ∧
    QueueUrls response = Some (concat pages) ∧
    calls st'
      = calls st ++ map (ListQueuesCall region 10) (None :: map Some tokens) ∧
    length (calls st') = (length (calls st) + length pages)%nat ∧
    positioning st' = positioning st ∧
    ∀ page_size ids,
      (0 < page_size)%nat → pages = chunks page_size ids →
      QueueUrls response = Some ids ∧
      length pages = div_ceil (length ids) page_size.
Proof.
  intros Hs Hne Hfuel.
  assert (∀ page_size ids,
            (0 < page_size)%nat → pages = chunks page_size ids →
            concat pages = ids ∧
            length pages = div_ceil (length ids) page_size) as Hchunks.
  { intros page_size ids Hp ->. by apply chunks_go_spec. }
  assert (∃ response st',
            get_all_sqs_queue_urls boto3_client fuel region st
              = (Ret response, st') ∧
            QueueUrls response = Some (concat pages) ∧
            calls st' = calls st ++ map (ListQueuesCall region 10)
                                      (None :: map Some tokens) ∧
            length (calls st') = (length (calls st) + length pages)%nat ∧
            positioning st' = positioning st)
    as (response & st' & Hrun & Hurls & Hcalls & Hlen & Hpos);
    [|exists response, st'; repeat (split; [assumption|]);
      intros page_size ids Hp Hpages;
      destruct (Hchunks page_size ids Hp Hpages) as [Hcat Hnum];
      split; [congruence | exact Hnum]].
  clear Hchunks. unfold get_all_sqs_queue_urls.
  assert (length tokens = pred (length pages)) as Hlen.
  { clear Hne Hfuel. induction Hs as [|? ? ? ? ? ? ? IH]; [done|]. simpl.
    rewrite IH. by inversion Hs. }
  inversion Hs as [? page Hpage|? page next rest toks Hpage Hrest]; subst.
  - destruct fuel as [|fuel]; [simpl in Hfuel; lia|].
    rewrite get_all_loop_first by done. fold client. rewrite Hpage. simpl.
    eexists _, _. split; [reflexivity|]. simpl.
    rewrite app_nil_r, length_app. done.
  - destruct fuel as [|fuel]; [simpl in Hfuel; lia|].
    rewrite get_all_loop_first by done. fold client. rewrite Hpage. simpl.
    inversion Hne as [|? ? Hnext Hne']; subst.
    rewrite (get_all_loop_serves rest toks next fuel
               {| QueueUrls := Some page; NextToken := Some next |}
               page _ Hnext Hrest Hne' eq_refl) by (simpl in Hfuel; lia).
    eexists _, _. split; [reflexivity|]. simpl.
    rewrite <- app_assoc. repeat split.
    rewrite length_app. simpl. rewrite !length_map.
    simpl in Hlen. assert (length rest ≠ 0%nat) by (inversion Hrest; done).
    lia.
Qed.

(** C10: when the first page carries neither ["QueueUrls"] nor
    ["NextToken"], [get_all_sqs_queue_urls] returns a response without
    ["QueueUrls"], and [create_sqs_widgets] raises [KeyError] for that key
    where it reads it; no list of widgets is returned. *)
Theorem create_sqs_widgets_no_queues fuel deploy_stage st :
  list_queues client 10 None = {| QueueUrls := None; NextToken := None |} →
  ∃ response st',
    get_all_sqs_queue_urls boto3_client (S fuel) region st
      = (Ret response, st') ∧
    QueueUrls response = None ∧
    create_sqs_widgets boto3_client sqs_queues (S fuel) region deploy_stage st
      = (Raise (KeyError "QueueUrls"), st') ∧
    create_sqs_widgets boto3_client sqs_queues (S fuel) region deploy_stage st
      ≠ (Ret [], st').
Proof.
  intros Hpage. unfold create_sqs_widgets, get_all_sqs_queue_urls.
  unfold mbind, M_bind, bind.
  rewrite get_all_loop_first by done. fold client. rewrite Hpage. simpl.
  eexists _, _. repeat split. done.
Qed.

End Pagination.

(** ** Building the widgets *)

Section Widgets.
Import PyStr.
Variable boto3_client : string → SqsClient.
Variable sqs_queues : gmap string (gmap string string).
Variables region deploy_stage : string.

Let step := widget_step boto3_client sqs_queues region deploy_stage.
Let loop := widget_loop boto3_client sqs_queues region deploy_stage.

Lemma is_iow_queue_filter_eligible queue_url st :
  Substring (upper deploy_stage) queue_url →
  TaggedIOW (list_queue_tags (boto3_client region) queue_url) →
  is_iow_queue_filter boto3_client queue_url deploy_stage region st
    = (Ret true, logged (ListQueueTagsCall region queue_url) st).
Proof.
  intros Hin%str_in_spec (tags & Htags & Horg).
  by rewrite is_iow_queue_filter_run, Hin, Htags, Horg.
Qed.

(** What the loop body does for an eligible queue whose title is known. *)
Lemma widget_step_eligible sqs_widgets queue_url st name entry queue_title :
  Substring (upper deploy_stage) queue_url →
  TaggedIOW (list_queue_tags (boto3_client region) queue_url) →
  queue_name_of queue_url = Ret name →
  sqs_queues !! tier_agnostic deploy_stage name = Some entry →
  entry !! "title" = Some queue_title →
  step sqs_widgets queue_url st =
    (Ret (sqs_widgets ++
            [queue_widget region name queue_title
               (Positioning.set_width 12 (positioning st))]),
     {| positioning :=
          Positioning.iterate_positioning
            (Positioning.set_width 12 (positioning st));
        calls := calls st ++ [ListQueueTagsCall region queue_url] |}).
Proof.
  intros Hin Htag Hname Hentry Htitle. unfold step, widget_step.
  unfold mbind, M_bind, bind.
  rewrite is_iow_queue_filter_eligible by done.
  unfold lift. rewrite Hname, Hentry. simpl. rewrite Htitle. reflexivity.
Qed.

(** What the loop body does for a queue the filter rejects. *)
Lemma widget_step_ineligible sqs_widgets queue_url st :
  fst (is_iow_queue_filter boto3_client queue_url deploy_stage region st)
    = Ret false →
  step sqs_widgets queue_url st =
    (Ret sqs_widgets,
     snd (is_iow_queue_filter boto3_client queue_url deploy_stage region st)).
Proof.
  intros Hf. unfold step, widget_step. unfold mbind, M_bind, bind.
  destruct (is_iow_queue_filter _ _ _ _ _) as [o st1]. simpl in Hf.
  by subst o.
Qed.

(** The loop over a concatenation runs the first part, then the second. *)
Lemma widget_loop_app before after sqs_widgets st :
  loop (before ++ after) sqs_widgets st =
    match loop before sqs_widgets st with
    | (Ret ws, st1) => loop after ws st1
    | (Raise e, st1) => (Raise e, st1)
    | (OutOfFuel, st1) => (OutOfFuel, st1)
    end.
Proof.
  revert sqs_widgets st. induction before as [|u before IH];
    intros sqs_widgets st.
  - reflexivity.
  - unfold loop in *. simpl. unfold mbind, M_bind, bind.
    destruct (widget_step _ _ _ _ _ _ _) as [[ws| |] st1]; [apply IH|done..].
Qed.

(** C3, as the code has it: for an eligible queue URL whose title is in the
    table, the loop body appends one descriptor.  Its width is 12 whatever
    the cursor's width was, its height is the cursor's height plus 3, its x
    and y are the cursor's; the view is "timeSeries", not stacked, with
    period 60, statistic "Average" and the title looked up; the metrics array
    has six rows, the first with the queue name in its dimension-value slot
    and each of the other five with the placeholder "." there.  The cursor
    keeps the width 12 afterwards. *)
Theorem widget_step_descriptor sqs_widgets queue_url st name entry queue_title :
  Substring (upper deploy_stage) queue_url →
  TaggedIOW (list_queue_tags (boto3_client region) queue_url) →
  queue_name_of queue_url = Ret name →
  sqs_queues !! tier_agnostic deploy_stage name = Some entry →
  entry !! "title" = Some queue_title →
  ∃ w st',
    widget_step boto3_client sqs_queues region deploy_stage
      sqs_widgets queue_url st = (Ret (sqs_widgets ++ [w]), st') ∧
    Widget.type w = "metric" ∧
    Widget.width w = 12 ∧
    Widget.height w = Positioning.height (positioning st) + 3 ∧
    Widget.x w = Positioning.x (positioning st) ∧
    Widget.y w = Positioning.y (positioning st) ∧
    Widget.view (Widget.props w) = "timeSeries" ∧
    Widget.stacked (Widget.props w) = false ∧
    Widget.region (Widget.props w) = region ∧
    Widget.period (Widget.props w) = 60 ∧
    Widget.stat (Widget.props w) = "Average" ∧
    Widget.title (Widget.props w) = queue_title ∧
    length (Widget.metrics (Widget.props w)) = 6%nat ∧
    dimension_value <$> Widget.metrics (Widget.props w)
      = [Some (MStr name); Some (MStr "."); Some (MStr ".");
         Some (MStr "."); Some (MStr "."); Some (MStr ".")] ∧
    Positioning.width (positioning st') = 12.
Proof.
  intros Hin Htag Hname Hentry Htitle.
  pose proof (widget_step_eligible sqs_widgets queue_url st name entry
                queue_title Hin Htag Hname Hentry Htitle) as Hrun.
  unfold step in Hrun. rewrite Hrun. eexists _, _.
  split; [reflexivity|]. simpl.
  repeat (split; [reflexivity|]).
  unfold Positioning.iterate_positioning. simpl.
  by destruct (_ <? _).
Qed.

(** C4, as the code has it: the metrics array built for an eligible queue
    has six fixed rows, all in the namespace "AWS/SQS" and on the dimension
    "QueueName" of the queue once "." is resolved: visible messages; age of
    the oldest message on the right axis; messages received and messages
    sent, each charted as a sum; messages deleted and messages delayed, which
    carry no statistic of their own and are charted with the widget's
    "Average". *)
Theorem widget_step_metrics sqs_widgets queue_url st name entry queue_title :
  Substring (upper deploy_stage) queue_url →
  TaggedIOW (list_queue_tags (boto3_client region) queue_url) →
  queue_name_of queue_url = Ret name →
  sqs_queues !! tier_agnostic deploy_stage name = Some entry →
  entry !! "title" = Some queue_title →
  ∃ w st',
    widget_step boto3_client sqs_queues region deploy_stage
      sqs_widgets queue_url st = (Ret (sqs_widgets ++ [w]), st') ∧
    resolve_rows [] (Widget.metrics (Widget.props w)) =
      [ [MStr "AWS/SQS"; MStr "ApproximateNumberOfMessagesVisible";
         MStr "QueueName"; MStr name];
        [MStr "AWS/SQS"; MStr "ApproximateAgeOfOldestMessage";
         MStr "QueueName"; MStr name; MOpts [("yAxis", "right")]];
        [MStr "AWS/SQS"; MStr "NumberOfMessagesReceived";
         MStr "QueueName"; MStr name; MOpts [("stat", "Sum")]];
        [MStr "AWS/SQS"; MStr "NumberOfMessagesSent";
         MStr "QueueName"; MStr name; MOpts [("stat", "Sum")]];
        [MStr "AWS/SQS"; MStr "NumberOfMessagesDeleted";
         MStr "QueueName"; MStr name];
        [MStr "AWS/SQS"; MStr "ApproximateNumberOfMessagesDelayed";
         MStr "QueueName"; MStr name] ] ∧
    (row_stat (Widget.stat (Widget.props w))
       <$> Widget.metrics (Widget.props w))
      = ["Average"; "Average"; "Sum"; "Sum"; "Average"; "Average"] ∧
    (row_option "yAxis" <$> Widget.metrics (Widget.props w))
      = [None; Some "right"; None; None; None; None].
Proof.
  intros Hin Htag Hname Hentry Htitle.
  pose proof (widget_step_eligible sqs_widgets queue_url st name entry
                queue_title Hin Htag Hname Hentry Htitle) as Hrun.
  unfold step in Hrun. rewrite Hrun. eexists _, _.
  split; [reflexivity|]. simpl. repeat split.
Qed.

(** What the loop body does for an eligible queue missing from the table:
    the subscript raises before the cursor is touched. *)
Lemma widget_step_missing_title sqs_widgets queue_url st name :
  Substring (upper deploy_stage) queue_url →
  TaggedIOW (list_queue_tags (boto3_client region) queue_url) →
  queue_name_of queue_url = Ret name →
  sqs_queues !! tier_agnostic deploy_stage name = None →
  step sqs_widgets queue_url st =
    (Raise (KeyError (tier_agnostic deploy_stage name)),
     logged (ListQueueTagsCall region queue_url) st).
Proof.
  intros Hin Htag Hname Hentry. unfold step, widget_step.
  unfold mbind, M_bind, bind.
  rewrite is_iow_queue_filter_eligible by done.
  unfold lift. by rewrite Hname, Hentry.
Qed.

(** C7: when an eligible queue URL of the listing has a tier-agnostic name
    without an entry in [sqs_queues], [create_sqs_widgets] raises the
    [KeyError] of that name, a [LookupError], as soon as it reaches the URL.
    No list of widgets is returned, the cursor is as the URLs before it left
    it, and nothing is fetched for the URLs after it. *)
Theorem create_sqs_widgets_missing_title
    fuel st response st0 before queue_url after ws st1 name :
  get_all_sqs_queue_urls boto3_client fuel region st = (Ret response, st0) →
  QueueUrls response = Some (before ++ queue_url :: after) →
  widget_loop boto3_client sqs_queues region deploy_stage before [] st0
    = (Ret ws, st1) →
  Substring (upper deploy_stage) queue_url →
  TaggedIOW (list_queue_tags (boto3_client region) queue_url) →
  queue_name_of queue_url = Ret name →
  sqs_queues !! tier_agnostic deploy_stage name = None →
  ∃ e st',
    create_sqs_widgets boto3_client sqs_queues fuel region deploy_stage st
      = (Raise e, st') ∧
    e = KeyError (tier_agnostic deploy_stage name) ∧
    is_LookupError e = true ∧
    positioning st' = positioning st1 ∧
    calls st' = calls st1 ++ [ListQueueTagsCall region queue_url] ∧
    ∀ widgets st'',
      create_sqs_widgets boto3_client sqs_queues fuel region deploy_stage st
        ≠ (Ret widgets, st'').
Proof.
  intros Hall Hurls Hbefore Hin Htag Hname Hentry.
  assert (create_sqs_widgets boto3_client sqs_queues fuel region
            deploy_stage st
          = (Raise (KeyError (tier_agnostic deploy_stage name)),
             logged (ListQueueTagsCall region queue_url) st1)) as Hrun.
  { unfold create_sqs_widgets. unfold mbind, M_bind, bind.
    rewrite Hall. unfold lift. rewrite Hurls. simpl.
    fold loop. rewrite widget_loop_app. unfold loop at 1. rewrite Hbefore.
    unfold loop. simpl. unfold mbind, M_bind, bind. fold step.
    by rewrite (widget_step_missing_title ws queue_url st1 name). }
  rewrite Hrun. eexists _, _. repeat split. done.
Qed.

End Widgets.

(** ** Concrete runs *)

Section Runs.
Import PyStr Scenario.

Ltac compute_eq := vm_compute; reflexivity.

Lemma tagged_in_scenario first later queue_url :
  queue_tags !! queue_url = Some iow →
  TaggedIOW (list_queue_tags (table_client first later region) queue_url).
Proof. intros H. exists iow. split; [exact H | reflexivity]. Qed.

(** The listing of the specification's end-to-end scenario: two identifiers
    in one page, only the second in the tier and tagged.  One widget comes
    out and the cursor has advanced once, from (0, 0) to the next row. *)
Example create_sqs_widgets_one_page :
  ∃ w st',
    create_sqs_widgets one_page sqs_queues 1 region "TEST" start
      = (Ret [w], st') ∧
    Widget.title (Widget.props w) = "Error Queue" ∧
    (Widget.x w, Widget.y w, Widget.width w, Widget.height w) = (0, 0, 12, 6) ∧
    positioning st' = Positioning.mk 0 3 12 3 12 ∧
    calls st' = [ListQueuesCall region 10 None;
                 ListQueueTagsCall region error_queue_url].
Proof. eexists _, _. repeat split; compute_eq. Qed.

(** C1 as stated fails: a capability that links its two pages by the empty
    string serves them, but the loop takes the empty token for "no token",
    asks for the first page again, and never returns. *)
Lemma get_all_sqs_queue_urls_empty_token :
  Serves (empty_token region) None
    [[dev_queue_url]; [error_queue_url]] [""] ∧
  ∀ fuel,
    fst (get_all_sqs_queue_urls empty_token fuel region start) = OutOfFuel ∧
    ∀ response st',
      get_all_sqs_queue_urls empty_token fuel region start
        ≠ (Ret response, st').
Proof.
  split.
  - eapply Serves_next; [compute_eq|]. apply Serves_last. compute_eq.
  - intros fuel.
    assert (fst (get_all_sqs_queue_urls empty_token fuel region start)
            = OutOfFuel) as Hout.
    { unfold get_all_sqs_queue_urls.
      by apply (get_all_loop_empty_token empty_token region
                  (Some [dev_queue_url])). }
    split; [exact Hout|]. intros response st' Hrun.
    rewrite Hrun in Hout. discriminate.
Qed.

Example chunks_of_three :
  chunks 2 ["a"; "b"; "c"] = [["a"; "b"]; ["c"]] ∧
  div_ceil 3 2 = 2%nat.
Proof. split; reflexivity. Qed.

Lemma get_all_sqs_queue_urls_complete_witness :
  Serves (two_pages region) None
    [[dev_queue_url]; [error_queue_url]] ["page-2"] ∧
  ∃ response st',
    get_all_sqs_queue_urls two_pages 2 region start = (Ret response, st') ∧
    QueueUrls response = Some [dev_queue_url; error_queue_url] ∧
    calls st' = [ListQueuesCall region 10 None;
                 ListQueuesCall region 10 (Some "page-2")].
Proof.
  assert (Serves (two_pages region) None
            [[dev_queue_url]; [error_queue_url]] ["page-2"]) as Hs.
  { eapply Serves_next; [compute_eq|]. apply Serves_last. compute_eq. }
  split; [exact Hs|].
  destruct (get_all_sqs_queue_urls_complete two_pages region
              [[dev_queue_url]; [error_queue_url]] ["page-2"] 2%nat start Hs)
    as (response & st' & Hrun & Hurls & Hcalls & _).
  - repeat constructor. discriminate.
  - simpl. lia.
  - exists response, st'. repeat split; assumption.
Defined.

Lemma widget_step_descriptor_witness :
  Substring (upper "TEST") error_queue_url ∧
  ∃ w st',
    widget_step two_pages sqs_queues region "TEST" [] error_queue_url start
      = (Ret [w], st') ∧
    Widget.width w = 12 ∧ Widget.height w = 6 ∧
    Widget.title (Widget.props w) = "Error Queue" ∧
    length (Widget.metrics (Widget.props w)) = 6%nat.
Proof.
  assert (Substring (upper "TEST") error_queue_url) as Hin
    by (apply str_in_spec; compute_eq).
  split; [exact Hin|].
  destruct (widget_step_descriptor two_pages sqs_queues region "TEST" []
              error_queue_url start "aqts-capture-error-queue-TEST"
              {[ "title" := "Error Queue" ]} "Error Queue" Hin)
    as (w & st' & Hrun & _ & Hw & Hh & _ & _ & _ & _ & _ & _ & _ & Ht & Hm & _).
  - apply tagged_in_scenario. compute_eq.
  - compute_eq.
  - compute_eq.
  - compute_eq.
  - exists w, st'. repeat split; assumption.
Defined.

(** C3 as stated fails: in the widget built for the error queue the first
    metrics row names the queue, and the second row has the placeholder "."
    in its dimension-value slot, not the queue name. *)
Lemma widget_rows_repeat_by_placeholder :
  ∃ w st' row,
    create_sqs_widgets one_page sqs_queues 1 region "TEST" start
      = (Ret [w], st') ∧
    widget_queue w = Some (MStr "aqts-capture-error-queue-TEST") ∧
    Widget.metrics (Widget.props w) !! 1%nat = Some row ∧
    dimension_value row = Some (MStr ".") ∧
    dimension_value row ≠ Some (MStr "aqts-capture-error-queue-TEST").
Proof. eexists _, _, _. repeat split; try compute_eq. discriminate. Qed.

(** C4 as stated fails: in the widget built for the error queue, the row of
    deleted messages has no statistic of its own and is charted with the
    widget's "Average", not as a sum. *)
Lemma widget_deleted_not_summed :
  ∃ w st' row,
    create_sqs_widgets one_page sqs_queues 1 region "TEST" start
      = (Ret [w], st') ∧
    Widget.metrics (Widget.props w) !! 4%nat = Some row ∧
    metric_name row = Some (MStr "NumberOfMessagesDeleted") ∧
    row_option "stat" row = None ∧
    row_stat (Widget.stat (Widget.props w)) row = "Average" ∧
    row_stat (Widget.stat (Widget.props w)) row ≠ "Sum".
Proof. eexists _, _, _. repeat split; try compute_eq. discriminate. Qed.

Lemma widget_step_metrics_witness :
  Substring (upper "TEST") error_queue_url ∧
  ∃ w st',
    widget_step two_pages sqs_queues region "TEST" [] error_queue_url start
      = (Ret [w], st') ∧
    (row_stat (Widget.stat (Widget.props w))
       <$> Widget.metrics (Widget.props w))
      = ["Average"; "Average"; "Sum"; "Sum"; "Average"; "Average"].
Proof.
  assert (Substring (upper "TEST") error_queue_url) as Hin
    by (apply str_in_spec; compute_eq).
  split; [exact Hin|].
  destruct (widget_step_metrics two_pages sqs_queues region "TEST" []
              error_queue_url start "aqts-capture-error-queue-TEST"
              {[ "title" := "Error Queue" ]} "Error Queue" Hin)
    as (w & st' & Hrun & _ & Hstat & _).
  - apply tagged_in_scenario. compute_eq.
  - compute_eq.
  - compute_eq.
  - compute_eq.
  - exists w, st'. split; assumption.
Defined.

(** C5 as stated fails: for a queue whose name has the tier twice,
    [str.replace] takes out both occurrences, which is not the name without
    its tier ending. *)
Lemma tier_agnostic_not_suffix_removal :
  Substring "/" twice_queue_url ∧
  queue_name_of twice_queue_url = Ret "aqts-capture-TEST-drain-queue-TEST" ∧
  tier_agnostic "TEST" "aqts-capture-TEST-drain-queue-TEST"
    = "aqts-capture-drain-queue" ∧
  removesuffix "-TEST" "aqts-capture-TEST-drain-queue-TEST"
    = "aqts-capture-TEST-drain-queue" ∧
  tier_agnostic "TEST" "aqts-capture-TEST-drain-queue-TEST"
    ≠ removesuffix "-TEST" "aqts-capture-TEST-drain-queue-TEST".
Proof.
  split; [apply str_in_spec; compute_eq|].
  repeat split; try compute_eq. vm_compute. discriminate.
Qed.

Lemma queue_names_derived_witness :
  Substring "/" error_queue_url ∧
  queue_name_of error_queue_url = Ret "aqts-capture-error-queue-TEST" ∧
  tier_agnostic "TEST" "aqts-capture-error-queue-TEST"
    = "aqts-capture-error-queue".
Proof.
  assert (Substring "/" error_queue_url) as Hin
    by (apply str_in_spec; compute_eq).
  split; [exact Hin|].
  destruct (queue_names_derived error_queue_url "TEST" Hin)
    as (pre & name & _ & _ & Hname & _ & Hsuffix & _ & _ & _).
  assert (name = "aqts-capture-error-queue-TEST") as ->.
  { assert (queue_name_of error_queue_url
            = Ret "aqts-capture-error-queue-TEST") as Hq by compute_eq.
    rewrite Hq in Hname. by injection Hname. }
  split; [compute_eq|].
  apply (Hsuffix "aqts-capture-error-queue"); compute_eq.
Defined.

Lemma iterate_positioning_spec_witness :
  Positioning.iterate_positioning (Positioning.mk 0 0 12 3 12)
    = Positioning.mk 0 3 12 3 12 ∧
  Positioning.iterate_positioning (Positioning.mk 0 0 3 3 12)
    = Positioning.mk 3 0 3 3 12.
Proof.
  destruct (iterate_positioning_spec (Positioning.mk 0 0 3 3 12))
    as (_ & _ & _ & _ & _ & Hwrap & Hadvance).
  split; assumption.
Defined.

Lemma create_sqs_widgets_missing_title_witness :
  Substring (upper "TEST") unlisted_queue_url ∧
  sqs_queues !! tier_agnostic "TEST" "aqts-capture-unlisted-queue-TEST"
    = None ∧
  ∃ st',
    create_sqs_widgets with_unlisted sqs_queues 1 region "TEST" start
      = (Raise (KeyError "aqts-capture-unlisted-queue"), st') ∧
    positioning st' = Positioning.mk 0 3 12 3 12 ∧
    calls st' = [ListQueuesCall region 10 None;
                 ListQueueTagsCall region error_queue_url;
                 ListQueueTagsCall region unlisted_queue_url].
Proof.
  assert (Substring (upper "TEST") unlisted_queue_url) as Hin
    by (apply str_in_spec; compute_eq).
  assert (sqs_queues !! tier_agnostic "TEST" "aqts-capture-unlisted-queue-TEST"
          = None) as Hnone by compute_eq.
  split; [exact Hin|]. split; [exact Hnone|].
  destruct (create_sqs_widgets_missing_title with_unlisted sqs_queues region
              "TEST" 1%nat start
              {| QueueUrls := Some [error_queue_url; unlisted_queue_url;
                                    dev_queue_url];
                 NextToken := None |}
              {| positioning := Positioning.mk 0 0 3 3 12;
                 calls := [ListQueuesCall region 10 None] |}
              [error_queue_url] unlisted_queue_url [dev_queue_url]
              [queue_widget region "aqts-capture-error-queue-TEST"
                 "Error Queue" (Positioning.mk 0 0 12 3 12)]
              {| positioning := Positioning.mk 0 3 12 3 12;
                 calls := [ListQueuesCall region 10 None;
                           ListQueueTagsCall region error_queue_url] |}
              "aqts-capture-unlisted-queue-TEST")
    as (e & st' & Hrun & -> & _ & Hpos & Hcalls & _).
  - compute_eq.
  - reflexivity.
  - compute_eq.
  - exact Hin.
  - apply tagged_in_scenario. compute_eq.
  - compute_eq.
  - exact Hnone.
  - exists st'. split; [|split; assumption].
    rewrite Hrun. reflexivity.
Defined.

Lemma is_iow_queue_filter_short_circuit_witness :
  ¬ Substring (upper "TEST") dev_queue_url ∧
  is_iow_queue_filter one_page dev_queue_url "TEST" region start
    = (Ret false, start).
Proof.
  assert (¬ Substring (upper "TEST") dev_queue_url) as Hno
    by (apply str_in_false; compute_eq).
  split; [exact Hno|].
  apply (is_iow_queue_filter_short_circuit one_page dev_queue_url "TEST"
           region start Hno).
Defined.

(** C9 as stated fails: an identifier without a path separator raises
    nothing.  Its name is the identifier as a whole, and
    [create_sqs_widgets] returns a widget for it. *)
Lemma bare_identifier_no_error :
  ¬ Substring "/" bare_queue_id ∧
  queue_name_of bare_queue_id = Ret bare_queue_id ∧
  (∀ e, queue_name_of bare_queue_id ≠ Raise e) ∧
  ∃ w st',
    create_sqs_widgets bare sqs_queues 1 region "TEST" start
      = (Ret [w], st') ∧
    dimension_value <$> head (Widget.metrics (Widget.props w))
      = Some (Some (MStr bare_queue_id)).
Proof.
  split; [apply str_in_false; compute_eq|].
  split; [compute_eq|]. split.
  - intros e. vm_compute. discriminate.
  - eexists _, _. split; compute_eq.
Qed.

Lemma queue_name_of_no_separator_witness :
  ¬ Substring "/" bare_queue_id ∧
  queue_name_of bare_queue_id = Ret bare_queue_id.
Proof.
  assert (¬ Substring "/" bare_queue_id) as Hno
    by (apply str_in_false; compute_eq).
  split; [exact Hno|].
  apply (queue_name_of_no_separator bare_queue_id Hno).
Defined.

Lemma create_sqs_widgets_no_queues_witness :
  list_queues (no_queues region) 10 None
    = {| QueueUrls := None; NextToken := None |} ∧
  ∃ st',
    create_sqs_widgets no_queues sqs_queues 1 region "TEST" start
      = (Raise (KeyError "QueueUrls"), st').
Proof.
  assert (list_queues (no_queues region) 10 None
          = {| QueueUrls := None; NextToken := None |}) as Hpage
    by reflexivity.
  split; [exact Hpage|].
  destruct (create_sqs_widgets_no_queues no_queues sqs_queues region 0%nat
              "TEST" start Hpage) as (response & st' & _ & _ & Hrun & _).
  by exists st'.
Defined.

End Runs.

(** ** More on pagination *)

Section PaginationEdges.
Variable boto3_client : string → SqsClient.
Variable region : string.

Let client := boto3_client region.

(** The run of [get_all_sqs_queue_urls] on pages linked by non-empty
    tokens, in full. *)
Lemma get_all_run_serves pages tokens fuel st :
  Serves client None pages tokens →
  Forall (λ t, t ≠ "") tokens →
  (length pages ≤ fuel)%nat →
  get_all_sqs_queue_urls boto3_client fuel region st =
    (Ret {| QueueUrls := Some (concat pages); NextToken := head tokens |},
     logged_all (map (ListQueuesCall region 10) (None :: map Some tokens)) st).
Proof.
  intros Hs Hne Hfuel. unfold get_all_sqs_queue_urls.
  destruct fuel as [|fuel]; [destruct Hs; simpl in Hfuel; lia|].
  rewrite get_all_loop_first by done. fold client.
  inversion Hs as [? page Hpage|? page next rest toks Hpage Hrest]; subst;
    rewrite Hpage; simpl.
  - by rewrite app_nil_r.
  - inversion Hne as [|? ? Hnext Hne']; subst.
    rewrite (get_all_loop_serves boto3_client region rest toks next fuel
               {| QueueUrls := Some page; NextToken := Some next |}
               page _ Hnext Hrest Hne' eq_refl) by (simpl in Hfuel; lia).
    by rewrite logged_logged_all.
Qed.

(** X2: the response returned for a listing of several pages still carries
    the continuation token of the first page under ["NextToken"], although no
    page is left to fetch; for a single page it carries none. *)
Theorem get_all_sqs_queue_urls_keeps_first_token pages tokens fuel st :
  Serves client None pages tokens →
  Forall (λ t, t ≠ "") tokens →
  (length pages ≤ fuel)%nat →
  ∃ response st',
    get_all_sqs_queue_urls boto3_client fuel region st = (Ret response, st') ∧
    NextToken response = head tokens ∧
    NextToken response = NextToken (list_queues client 10 None) ∧
    (NextToken response = None ↔ length pages = 1%nat).
Proof.
  intros Hs Hne Hfuel. rewrite (get_all_run_serves pages tokens) by done.
  eexists _, _. split; [reflexivity|]. simpl.
  inversion Hs as [? page Hpage|? page next rest toks Hpage Hrest]; subst;
    rewrite Hpage; simpl.
  - done.
  - repeat split; try done. intros [=Hlen]. destruct Hrest; discriminate.
Qed.

(** What every run of the loop leaves behind, however it ends. *)
Lemma get_all_loop_footprint fuel :
  ∀ response next_token st o st',
    get_all_loop boto3_client fuel region response next_token st = (o, st') →
    positioning st' = positioning st ∧
    ∃ tokens,
      calls st' = calls st ++ map (ListQueuesCall region 10) tokens ∧
      (length tokens ≤ fuel)%nat ∧
      Forall (λ t, t = None ∨ truthy t = true) tokens ∧
      (truthy next_token = false → fuel ≠ 0%nat → head tokens = Some None).
Proof.
  induction fuel as [|fuel IH]; intros response next_token st o st' Hrun.
  { injection Hrun as <- <-. split; [done|]. exists [].
    rewrite app_nil_r. repeat split; [simpl; lia|constructor|done]. }
  set (left_by t :=
         positioning st' = positioning st ∧
         ∃ tokens,
           calls st' = calls st ++ map (ListQueuesCall region 10) tokens ∧
           (length tokens ≤ S fuel)%nat ∧
           Forall (λ t, t = None ∨ truthy t = true) tokens ∧
           head tokens = Some t).
  assert (∀ t, t = None ∨ truthy t = true →
            st' = logged (ListQueuesCall region 10 t) st → left_by t)
    as Hend.
  { intros t Ht ->. split; [done|]. exists [t].
    repeat split; [simpl; lia|by constructor]. }
  assert (∀ t r tok, t = None ∨ truthy t = true →
            get_all_loop boto3_client fuel region r tok
              (logged (ListQueuesCall region 10 t) st) = (o, st') →
            left_by t) as Hmore.
  { intros t r tok Ht Hrest.
    destruct (IH _ _ _ _ _ Hrest) as (Hpos & toks & Hcalls & Hlen & Hall & _).
    split; [by rewrite Hpos|]. exists (t :: toks).
    rewrite Hcalls. simpl. rewrite <- app_assoc.
    repeat split; [simpl; lia|by constructor]. }
  destruct (truthy next_token) eqn:Htruthy.
  - destruct next_token as [tok|]; [|done].
    rewrite get_all_loop_next in Hrun by done. cbv zeta in Hrun.
    assert (left_by (Some tok)) as (Hpos & toks & Hcalls & Hlen & Hall & _).
    { destruct (QueueUrls response);
        [|injection Hrun as <- <-; apply Hend; auto].
      destruct (QueueUrls (list_queues _ _ _));
        [|injection Hrun as <- <-; apply Hend; auto].
      destruct (NextToken (list_queues _ _ _));
        [|injection Hrun as <- <-; apply Hend; auto].
      eapply Hmore; [auto|exact Hrun]. }
    split; [done|]. exists toks. repeat split; done.
  - rewrite get_all_loop_first in Hrun by done. cbv zeta in Hrun.
    assert (left_by None) as (Hpos & toks & Hcalls & Hlen & Hall & Hhead).
    { destruct (NextToken (list_queues _ _ _));
        [|injection Hrun as <- <-; apply Hend; auto].
      eapply Hmore; [auto|exact Hrun]. }
    split; [done|]. exists toks. repeat split; done.
Qed.

(** X1: however a run of [get_all_sqs_queue_urls] ends (a result, an
    exception, or still looping), it has left the cursor alone and has only
    made [list_queues] calls, in its region and with MaxResults 10: the
    first without a token, and each of them either without a token or with a
    non-empty one, so that an empty token is never sent; it has made no tag
    lookup. *)
Theorem get_all_sqs_queue_urls_footprint fuel st :
  let run := get_all_sqs_queue_urls boto3_client fuel region st in
  positioning (snd run) = positioning st ∧
  ∃ tokens,
    calls (snd run) = calls st ++ map (ListQueuesCall region 10) tokens ∧
    (length tokens ≤ fuel)%nat ∧
    Forall (λ t, t = None ∨ truthy t = true) tokens ∧
    (fuel ≠ 0%nat → head tokens = Some None).
Proof.
  intros run. subst run. unfold get_all_sqs_queue_urls.
  destruct (get_all_loop _ _ _ _ _ _) as [o st'] eqn:Hrun.
  destruct (get_all_loop_footprint _ _ _ _ _ _ Hrun)
    as (Hpos & toks & Hcalls & Hlen & Hall & Hhead).
  split; [done|]. exists toks. repeat split; try done.
  intros Hfuel. by apply Hhead.
Qed.

(** X3: when the first page announces a further page with a non-empty token,
    and either of the two has no ["QueueUrls"], the second iteration raises
    [KeyError] for that key, after exactly those two calls. *)
Theorem get_all_sqs_queue_urls_page_without_urls fuel st tok :
  NextToken (list_queues client 10 None) = Some tok →
  tok ≠ "" →
  QueueUrls (list_queues client 10 None) = None ∨
  QueueUrls (list_queues client 10 (Some tok)) = None →
  get_all_sqs_queue_urls boto3_client (S (S fuel)) region st =
    (Raise (KeyError "QueueUrls"),
     logged_all [ListQueuesCall region 10 None;
                 ListQueuesCall region 10 (Some tok)] st).
Proof.
  intros Htok Hne Hnone. unfold get_all_sqs_queue_urls.
  rewrite get_all_loop_first by done. fold client. cbv zeta. rewrite Htok.
  rewrite get_all_loop_next by by apply truthy_nonempty.
  fold client. cbv zeta.
  assert (logged (ListQueuesCall region 10 (Some tok))
            (logged (ListQueuesCall region 10 None) st)
          = logged_all [ListQueuesCall region 10 None;
                        ListQueuesCall region 10 (Some tok)] st) as ->.
  { unfold logged, logged_all. simpl. by rewrite <- app_assoc. }
  unfold update. simpl.
  destruct Hnone as [-> | ->]; [done|].
  by destruct (QueueUrls (list_queues client 10 None)).
Qed.

Lemma get_all_loop_empty_token_calls fuel :
  NextToken (list_queues client 10 None) = Some "" →
  ∀ response next_token st,
    truthy next_token = false →
    get_all_loop boto3_client fuel region response next_token st =
      (OutOfFuel,
       logged_all (replicate fuel (ListQueuesCall region 10 None)) st).
Proof.
  intros Htok. induction fuel as [|fuel IH]; intros response tok st Hf.
  - unfold logged_all. simpl. rewrite app_nil_r. by destruct st.
  - rewrite get_all_loop_first by done. fold client. cbv zeta.
    rewrite Htok, IH by done. by rewrite logged_logged_all.
Qed.

(** X4: when the first page carries the empty string as its continuation
    token, [get_all_sqs_queue_urls] never returns: whatever the fuel, it is
    still looping, and every call it has made is the request for the first
    page. *)
Theorem get_all_sqs_queue_urls_empty_first_token fuel st :
  NextToken (list_queues client 10 None) = Some "" →
  get_all_sqs_queue_urls boto3_client fuel region st =
    (OutOfFuel,
     logged_all (replicate fuel (ListQueuesCall region 10 None)) st).
Proof.
  intros Htok. unfold get_all_sqs_queue_urls.
  by apply get_all_loop_empty_token_calls.
Qed.

End PaginationEdges.

(** ** More on the filter and on names *)

Section FilterEdges.
Import PyStr.
Variable boto3_client : string → SqsClient.

Lemma upper_char_idempotent c : upper_char (upper_char c) = upper_char c.
Proof. by destruct c as [[] [] [] [] [] [] [] []]. Qed.

Lemma upper_cons c s : upper (String c s) = String (upper_char c) (upper s).
Proof. reflexivity. Qed.

Lemma upper_idempotent s : upper (upper s) = upper s.
Proof.
  induction s as [|c s IH]; [done|].
  by rewrite !upper_cons, upper_char_idempotent, IH.
Qed.

Lemma str_in_empty hay : str_in "" hay = true.
Proof. apply str_in_spec. by exists "", hay. Qed.

Lemma tagged_iow_spec r : tagged_iow r = true ↔ TaggedIOW r.
Proof.
  unfold tagged_iow, TaggedIOW. destruct (Tags r) as [tags|].
  - destruct (tags !! "wma:organization") as [o|] eqn:Ho.
    + destruct (String.eqb_spec "IOW" o) as [<-|Hne].
      * split; [eauto|done].
      * split; [done|]. intros (tags' & [= <-] & ?). congruence.
    + split; [done|]. intros (tags' & [= <-] & ?). congruence.
  - split; [done|]. by intros (tags' & ? & _).
Qed.

(** The run of the filter in terms of [eligible]. *)
Lemma is_iow_queue_filter_eligible_run queue_url deploy_stage region st :
  is_iow_queue_filter boto3_client queue_url deploy_stage region st =
    (Ret (eligible (boto3_client region) deploy_stage queue_url),
     if str_in (upper deploy_stage) queue_url
     then logged (ListQueueTagsCall region queue_url) st
     else st).
Proof.
  rewrite is_iow_queue_filter_run. unfold eligible, tagged_iow.
  by destruct (str_in (upper deploy_stage) queue_url).
Qed.

(** X5: the filter sees the deploy stage through [upper] only: the stage
    and its upper-cased form give the same answer and the same calls, so
    that "test", "Test" and "TEST" select the same queues. *)
Theorem is_iow_queue_filter_any_case queue_url deploy_stage region st :
  is_iow_queue_filter boto3_client queue_url (upper deploy_stage) region st
    = is_iow_queue_filter boto3_client queue_url deploy_stage region st.
Proof. by rewrite !is_iow_queue_filter_run, upper_idempotent. Qed.

(** X6: when the upper-cased stage occurs in the URL, the filter makes
    exactly one call, the tag lookup of that URL in its region, whatever the
    tags turn out to be, and its answer is the tag test; in every case it
    leaves the cursor as it was. *)
Theorem is_iow_queue_filter_one_lookup queue_url deploy_stage region st :
  let run :=
    is_iow_queue_filter boto3_client queue_url deploy_stage region st in
  positioning (snd run) = positioning st ∧
  (Substring (upper deploy_stage) queue_url →
     calls (snd run) = calls st ++ [ListQueueTagsCall region queue_url] ∧
     fst run
       = Ret (tagged_iow (list_queue_tags (boto3_client region) queue_url))).
Proof.
  intros run. subst run. rewrite is_iow_queue_filter_eligible_run.
  unfold eligible. split.
  - by destruct (str_in (upper deploy_stage) queue_url).
  - intros Hin%str_in_spec. by rewrite Hin.
Qed.

(** X7: with the empty string as deploy stage the tier test holds for every
    URL: the tags of every URL are fetched, and the answer is the tag test
    alone. *)
Theorem is_iow_queue_filter_empty_stage queue_url region st :
  is_iow_queue_filter boto3_client queue_url "" region st =
    (Ret (tagged_iow (list_queue_tags (boto3_client region) queue_url)),
     logged (ListQueueTagsCall region queue_url) st) ∧
  (fst (is_iow_queue_filter boto3_client queue_url "" region st) = Ret true ↔
     TaggedIOW (list_queue_tags (boto3_client region) queue_url)).
Proof.
  rewrite is_iow_queue_filter_eligible_run. unfold eligible.
  change (upper "") with "". rewrite str_in_empty. split; [done|].
  simpl. rewrite <- tagged_iow_spec. split; [by intros [= ->]|by intros ->].
Qed.

(** X11: deriving the name never fails, with or without a path separator:
    the name is an ending of the URL, has no ['/'] in it, and is empty
    exactly when the URL is empty or ends with ['/']. *)
Theorem queue_name_of_ending queue_url :
  ∃ pre name,
    queue_name_of queue_url = Ret name ∧
    queue_url = pre +:+ name ∧
    ¬ Substring "/" name ∧
    (name = "" ↔ queue_url = "" ∨ ∃ before, queue_url = before +:+ "/").
Proof.
  destruct (str_in "/" queue_url) eqn:Hin.
  - apply str_in_spec in Hin.
    destruct (final_separator _ _ Hin) as (pre & name & -> & Hno).
    exists (pre +:+ "/"), name.
    split; [by apply queue_name_of_after|].
    split; [by rewrite app_assoc_str|].
    split; [by apply str_in_false|]. split.
    + intros ->. right. by exists pre.
    + intros [Hempty|(before & Hbefore)].
      * by destruct pre.
      * pose proof (queue_name_of_after pre name Hno) as Hname.
        change (pre +:+ "/" +:+ name) with (pre +:+ String "/" name) in Hname.
        rewrite Hbefore in Hname.
        change (before +:+ "/") with (before +:+ "/" +:+ "") in Hname.
        rewrite queue_name_of_after in Hname by done. by injection Hname.
  - exists "", queue_url. unfold queue_name_of, getitem_last.
    rewrite (split_no_sep _ _ Hin). split; [done|]. split; [done|].
    split; [by apply str_in_false|]. split; [by left|].
    intros [->|(before & ->)]; [done|].
    apply str_in_false in Hin. destruct Hin. by exists before, "".
Qed.

End FilterEdges.

(** ** More on the widget loop *)

Section LoopEdges.
Import PyStr.
Variable boto3_client : string → SqsClient.
Variable sqs_queues : gmap string (gmap string string).
Variables region deploy_stage : string.

Let client := boto3_client region.
Let step := widget_step boto3_client sqs_queues region deploy_stage.
Let loop := widget_loop boto3_client sqs_queues region deploy_stage.
Let is_eligible := λ queue_url, eligible client deploy_stage queue_url = true.
Let in_tier := λ queue_url, str_in (upper deploy_stage) queue_url = true.

Lemma widget_loop_cons queue_url rest sqs_widgets st :
  loop (queue_url :: rest) sqs_widgets st =
    match step sqs_widgets queue_url st with
    | (Ret ws, st1) => loop rest ws st1
    | (Raise e, st1) => (Raise e, st1)
    | (OutOfFuel, st1) => (OutOfFuel, st1)
    end.
Proof. reflexivity. Qed.

(** The loop body on a URL the filter rejects. *)
Lemma widget_step_rejected sqs_widgets queue_url st :
  eligible client deploy_stage queue_url = false →
  step sqs_widgets queue_url st =
    (Ret sqs_widgets,
     if str_in (upper deploy_stage) queue_url
     then logged (ListQueueTagsCall region queue_url) st
     else st).
Proof.
  intros He. unfold step, widget_step, mbind, M_bind, bind.
  rewrite is_iow_queue_filter_eligible_run. fold client. by rewrite He.
Qed.

Lemma eligible_true queue_url :
  eligible client deploy_stage queue_url = true →
  Substring (upper deploy_stage) queue_url ∧
  TaggedIOW (list_queue_tags client queue_url).
Proof.
  unfold eligible. intros [Hin Htag]%andb_true_iff.
  by rewrite <- str_in_spec, <- tagged_iow_spec.
Qed.

(** The loop body on an eligible URL with a title, by [name_of] and
    [title_of]. *)
Lemma widget_step_titled sqs_widgets queue_url st queue_title :
  eligible client deploy_stage queue_url = true →
  title_of sqs_queues deploy_stage queue_url = Some queue_title →
  ∃ name w,
    name_of queue_url = Some name ∧
    w = queue_widget region name queue_title
          (Positioning.set_width 12 (positioning st)) ∧
    step sqs_widgets queue_url st =
      (Ret (sqs_widgets ++ [w]),
       {| positioning :=
            Positioning.iterate_positioning
              (Positioning.set_width 12 (positioning st));
          calls := calls st ++ [ListQueueTagsCall region queue_url] |}).
Proof.
  intros [Hin Htag]%eligible_true Htitle.
  unfold title_of, name_of in *.
  destruct (queue_name_of queue_url) as [name| |] eqn:Hname; try done.
  destruct (sqs_queues !! tier_agnostic deploy_stage name) as [entry|]
    eqn:Hentry; [|done].
  exists name, (queue_widget region name queue_title
                  (Positioning.set_width 12 (positioning st))).
  split; [done|]. split; [done|].
  by apply (widget_step_eligible boto3_client sqs_queues region deploy_stage
              sqs_widgets queue_url st name entry queue_title).
Qed.

(** The loop as a whole, when every eligible URL has a title. *)
Lemma widget_loop_per_eligible queue_urls :
  ∀ sqs_widgets st,
    Forall (λ queue_url, is_eligible queue_url →
              is_Some (title_of sqs_queues deploy_stage queue_url))
      queue_urls →
    ∃ new st',
      loop queue_urls sqs_widgets st = (Ret (sqs_widgets ++ new), st') ∧
      (λ w, Some (Widget.title (Widget.props w))) <$> new
        = title_of sqs_queues deploy_stage <$> filter is_eligible queue_urls ∧
      widget_queue <$> new
        = (λ queue_url, MStr <$> name_of queue_url)
            <$> filter is_eligible queue_urls ∧
      Forall (λ w, Widget.width w = 12 ∧
                   Widget.region (Widget.props w) = region) new ∧
      calls st'
        = calls st ++ (ListQueueTagsCall region <$> filter in_tier queue_urls) ∧
      (filter is_eligible queue_urls = [] → positioning st' = positioning st).
Proof.
  induction queue_urls as [|queue_url rest IH]; intros sqs_widgets st Htitled.
  { exists [], st. rewrite !app_nil_r. repeat split; constructor. }
  inversion Htitled as [|? ? Hurl Hrest]; subst.
  rewrite widget_loop_cons.
  destruct (eligible client deploy_stage queue_url) eqn:He.
  - destruct (Hurl He) as [queue_title Htitle].
    destruct (widget_step_titled sqs_widgets queue_url st queue_title He
                Htitle) as (name & w & Hname & Hw & ->).
    destruct (IH (sqs_widgets ++ [w])
                {| positioning :=
                     Positioning.iterate_positioning
                       (Positioning.set_width 12 (positioning st));
                   calls := calls st ++ [ListQueueTagsCall region queue_url] |}
                Hrest)
      as (new & st' & -> & Htitles & Hnames & Hshape & Hcalls & _).
    exists (w :: new), st'.
    rewrite (filter_cons_True is_eligible) by exact He.
    assert (in_tier queue_url) as Hin.
    { unfold in_tier. unfold eligible in He.
      by apply andb_true_iff in He as [? _]. }
    rewrite (filter_cons_True in_tier) by exact Hin.
    split; [by rewrite <- app_assoc|].
    split; [rewrite !fmap_cons, Htitles, Htitle; by subst w|].
    split; [rewrite !fmap_cons, Hnames, Hname; by subst w|].
    split; [constructor; [by subst w|done]|].
    split; [|done].
    rewrite Hcalls. simpl. by rewrite <- app_assoc.
  - rewrite widget_step_rejected by done.
    destruct (IH sqs_widgets
                (if str_in (upper deploy_stage) queue_url
                 then logged (ListQueueTagsCall region queue_url) st
                 else st) Hrest)
      as (new & st' & -> & Htitles & Hnames & Hshape & Hcalls & Hpos).
    exists new, st'.
    rewrite (filter_cons_False is_eligible)
      by (unfold is_eligible; congruence).
    repeat (split; [done|]). split.
    + rewrite Hcalls. destruct (str_in (upper deploy_stage) queue_url) eqn:Hin.
      * rewrite (filter_cons_True in_tier) by exact Hin.
        simpl. by rewrite <- app_assoc.
      * rewrite (filter_cons_False in_tier)
          by (unfold in_tier; congruence).
        done.
    + intros Hnone. rewrite (Hpos Hnone).
      by destruct (str_in (upper deploy_stage) queue_url).
Qed.

(** [create_sqs_widgets] once the listing is known. *)
Lemma create_sqs_widgets_run fuel st response st0 queue_urls :
  get_all_sqs_queue_urls boto3_client fuel region st = (Ret response, st0) →
  QueueUrls response = Some queue_urls →
  create_sqs_widgets boto3_client sqs_queues fuel region deploy_stage st
    = loop queue_urls [] st0.
Proof.
  intros Hall Hurls. unfold create_sqs_widgets, mbind, M_bind, bind, lift.
  by rewrite Hall, Hurls.
Qed.

(** X9: when every eligible URL of the listing has a title in the table,
    [create_sqs_widgets] returns one widget per eligible URL, in the order
    of the listing, with that URL's title and queue name, width 12 and the
    region; URLs that are not eligible give no widget.  After the listing,
    the calls made are the tag lookups of the URLs that contain the
    upper-cased stage, one each, in the order of the listing. *)
Theorem create_sqs_widgets_per_eligible fuel st response st0 queue_urls :
  get_all_sqs_queue_urls boto3_client fuel region st = (Ret response, st0) →
  QueueUrls response = Some queue_urls →
  Forall (λ queue_url,
            eligible (boto3_client region) deploy_stage queue_url = true →
            is_Some (title_of sqs_queues deploy_stage queue_url))
    queue_urls →
  ∃ widgets st',
    create_sqs_widgets boto3_client sqs_queues fuel region deploy_stage st
      = (Ret widgets, st') ∧
    (λ w, Some (Widget.title (Widget.props w))) <$> widgets
      = title_of sqs_queues deploy_stage
          <$> filter (λ queue_url,
                        eligible (boto3_client region) deploy_stage queue_url
                        = true) queue_urls ∧
    widget_queue <$> widgets
      = (λ queue_url, MStr <$> name_of queue_url)
          <$> filter (λ queue_url,
                        eligible (boto3_client region) deploy_stage queue_url
                        = true) queue_urls ∧
    Forall (λ w, Widget.width w = 12 ∧
                 Widget.region (Widget.props w) = region) widgets ∧
    calls st'
      = calls st0 ++
        (ListQueueTagsCall region
           <$> filter (λ queue_url,
                         str_in (upper deploy_stage) queue_url = true)
                 queue_urls).
Proof.
  intros Hall Hurls Htitled.
  rewrite (create_sqs_widgets_run fuel st response st0 queue_urls) by done.
  destruct (widget_loop_per_eligible queue_urls [] st0 Htitled)
    as (new & st' & -> & Htitles & Hnames & Hshape & Hcalls & _).
  by exists new, st'.
Qed.

(** X10: when no URL of the listing is eligible, and so when the listing is
    empty, [create_sqs_widgets] returns the empty list and the cursor is as
    the caller passed it. *)
Theorem create_sqs_widgets_none_eligible fuel st response st0 queue_urls :
  get_all_sqs_queue_urls boto3_client fuel region st = (Ret response, st0) →
  QueueUrls response = Some queue_urls →
  Forall (λ queue_url,
            eligible (boto3_client region) deploy_stage queue_url = false)
    queue_urls →
  ∃ st',
    create_sqs_widgets boto3_client sqs_queues fuel region deploy_stage st
      = (Ret [], st') ∧
    positioning st' = positioning st.
Proof.
  intros Hall Hurls Hnone.
  rewrite (create_sqs_widgets_run fuel st response st0 queue_urls) by done.
  assert (filter is_eligible queue_urls = []) as Hfilter.
  { clear Hall Hurls. induction Hnone as [|queue_url rest He _ IH]; [done|].
    rewrite (filter_cons_False is_eligible); [exact IH|].
    unfold is_eligible, client. congruence. }
  destruct (widget_loop_per_eligible queue_urls [] st0)
    as (new & st' & -> & Htitles & _ & _ & _ & Hpos).
  { eapply Forall_impl; [exact Hnone|]. intros queue_url He.
    unfold is_eligible, client. congruence. }
  rewrite Hfilter in Htitles. apply fmap_nil_inv in Htitles as ->.
  exists st'. split; [done|]. rewrite (Hpos Hfilter).
  unfold get_all_sqs_queue_urls in Hall.
  by destruct (get_all_loop_footprint boto3_client region fuel _ _ _ _ _ Hall).
Qed.

(** X8: when the table has an entry for an eligible URL's tier-agnostic
    name but the entry has no ["title"], [create_sqs_widgets] raises
    [KeyError] for ["title"] as soon as it reaches the URL: the cursor is as
    the URLs before it left it, its width not yet forced, and nothing is
    fetched for the URLs after it. *)
Theorem create_sqs_widgets_missing_title_key
    fuel st response st0 before queue_url after ws st1 name entry :
  get_all_sqs_queue_urls boto3_client fuel region st = (Ret response, st0) →
  QueueUrls response = Some (before ++ queue_url :: after) →
  widget_loop boto3_client sqs_queues region deploy_stage before [] st0
    = (Ret ws, st1) →
  eligible (boto3_client region) deploy_stage queue_url = true →
  name_of queue_url = Some name →
  sqs_queues !! tier_agnostic deploy_stage name = Some entry →
  entry !! "title" = None →
  create_sqs_widgets boto3_client sqs_queues fuel region deploy_stage st
    = (Raise (KeyError "title"),
       {| positioning := positioning st1;
          calls := calls st1 ++ [ListQueueTagsCall region queue_url] |}).
Proof.
  intros Hall Hurls Hbefore He Hname Hentry Htitle.
  rewrite (create_sqs_widgets_run fuel st response st0 _ Hall Hurls).
  unfold loop.
  rewrite (widget_loop_app boto3_client sqs_queues region deploy_stage),
    Hbefore.
  fold loop. rewrite widget_loop_cons.
  unfold step, widget_step, mbind, M_bind, bind, lift.
  rewrite is_iow_queue_filter_eligible_run, He.
  unfold eligible in He. apply andb_true_iff in He as [-> _].
  unfold name_of in Hname.
  destruct (queue_name_of queue_url) as [n| |]; try done.
  injection Hname as ->. rewrite Hentry. simpl. by rewrite Htitle.
Qed.

End LoopEdges.

(** ** More concrete runs *)

Section MoreRuns.
Import PyStr Scenario Catalogue.

Ltac by_computing := vm_compute; reflexivity.

Lemma get_all_sqs_queue_urls_keeps_first_token_witness :
  Serves (two_pages region) None
    [[dev_queue_url]; [error_queue_url]] ["page-2"] ∧
  ∃ response st',
    get_all_sqs_queue_urls two_pages 2 region start = (Ret response, st') ∧
    NextToken response = Some "page-2".
Proof.
  assert (Serves (two_pages region) None
            [[dev_queue_url]; [error_queue_url]] ["page-2"]) as Hs.
  { eapply Serves_next; [by_computing|]. apply Serves_last. by_computing. }
  split; [exact Hs|].
  destruct (get_all_sqs_queue_urls_keeps_first_token two_pages region
              [[dev_queue_url]; [error_queue_url]] ["page-2"] 2%nat start Hs)
    as (response & st' & Hrun & Htok & _).
  - repeat constructor. discriminate.
  - simpl. lia.
  - exists response, st'. split; assumption.
Defined.

Lemma get_all_sqs_queue_urls_page_without_urls_witness :
  NextToken (list_queues (second_page_bare region) 10 None)
    = Some "page-2" ∧
  get_all_sqs_queue_urls second_page_bare 2 region start =
    (Raise (KeyError "QueueUrls"),
     {| positioning := Positioning.mk 0 0 3 3 12;
        calls := [ListQueuesCall region 10 None;
                  ListQueuesCall region 10 (Some "page-2")] |}).
Proof.
  assert (NextToken (list_queues (second_page_bare region) 10 None)
          = Some "page-2") as Htok by reflexivity.
  split; [exact Htok|].
  apply (get_all_sqs_queue_urls_page_without_urls second_page_bare region
           0%nat start "page-2" Htok).
  - discriminate.
  - right. by_computing.
Defined.

Lemma get_all_sqs_queue_urls_empty_first_token_witness :
  NextToken (list_queues (empty_token region) 10 None) = Some "" ∧
  get_all_sqs_queue_urls empty_token 3 region start =
    (OutOfFuel,
     {| positioning := Positioning.mk 0 0 3 3 12;
        calls := [ListQueuesCall region 10 None;
                  ListQueuesCall region 10 None;
                  ListQueuesCall region 10 None] |}).
Proof.
  assert (NextToken (list_queues (empty_token region) 10 None) = Some "")
    as Htok by reflexivity.
  split; [exact Htok|].
  apply (get_all_sqs_queue_urls_empty_first_token empty_token region 3%nat
           start Htok).
Defined.

Lemma is_iow_queue_filter_one_lookup_witness :
  Substring (upper "DEV") dev_queue_url ∧
  calls (snd (is_iow_queue_filter one_page dev_queue_url "DEV" region start))
    = [ListQueueTagsCall region dev_queue_url] ∧
  fst (is_iow_queue_filter one_page dev_queue_url "DEV" region start)
    = Ret false.
Proof.
  assert (Substring (upper "DEV") dev_queue_url) as Hin
    by (apply str_in_spec; by_computing).
  split; [exact Hin|].
  destruct (is_iow_queue_filter_one_lookup one_page dev_queue_url "DEV"
              region start) as (_ & Hone).
  destruct (Hone Hin) as (Hcalls & Hanswer).
  split; [exact Hcalls|]. rewrite Hanswer. by_computing.
Defined.

Lemma create_sqs_widgets_per_eligible_witness :
  ∃ w1 w2 st',
    create_sqs_widgets three_queues sqs_queues 1 region "TEST" start
      = (Ret [w1; w2], st') ∧
    Widget.title (Widget.props w1) = "Error Queue" ∧
    Widget.title (Widget.props w2) = "Error Queue" ∧
    calls st' = [ListQueuesCall region 10 None;
                 ListQueueTagsCall region error_queue_url;
                 ListQueueTagsCall region error_queue_url].
Proof.
  destruct (create_sqs_widgets_per_eligible three_queues sqs_queues region
              "TEST" 1%nat start
              {| QueueUrls := Some [error_queue_url; dev_queue_url;
                                    error_queue_url];
                 NextToken := None |}
              {| positioning := Positioning.mk 0 0 3 3 12;
                 calls := [ListQueuesCall region 10 None] |}
              [error_queue_url; dev_queue_url; error_queue_url])
    as (widgets & st' & Hrun & Htitles & _ & _ & Hcalls).
  - by_computing.
  - reflexivity.
  - repeat constructor; intros He.
    + exists "Error Queue". by_computing.
    + vm_compute in He. discriminate.
    + exists "Error Queue". by_computing.
  - match type of Htitles with
    | _ = ?titles =>
        assert (titles = [Some "Error Queue"; Some "Error Queue"]) as Hr
          by by_computing;
        rewrite Hr in Htitles
    end.
    destruct widgets as [|w1 [|w2 [|w3 widgets]]]; try discriminate.
    rewrite !fmap_cons in Htitles. injection Htitles as Ht1 Ht2.
    exists w1, w2, st'. repeat split; assumption.
Defined.

Lemma create_sqs_widgets_none_eligible_witness :
  eligible (other_tier region) "TEST" dev_queue_url = false ∧
  ∃ st',
    create_sqs_widgets other_tier sqs_queues 1 region "TEST" start
      = (Ret [], st') ∧
    positioning st' = Positioning.mk 0 0 3 3 12.
Proof.
  assert (eligible (other_tier region) "TEST" dev_queue_url = false) as He
    by by_computing.
  split; [exact He|].
  apply (create_sqs_widgets_none_eligible other_tier sqs_queues region "TEST"
           1%nat start
           {| QueueUrls := Some [dev_queue_url]; NextToken := None |}
           {| positioning := Positioning.mk 0 0 3 3 12;
              calls := [ListQueuesCall region 10 None] |}
           [dev_queue_url]).
  - by_computing.
  - reflexivity.
  - by repeat constructor.
Defined.

Lemma create_sqs_widgets_missing_title_key_witness :
  eligible (one_page region) "TEST" error_queue_url = true ∧
  create_sqs_widgets one_page untitled 1 region "TEST" start =
    (Raise (KeyError "title"),
     {| positioning := Positioning.mk 0 0 3 3 12;
        calls := [ListQueuesCall region 10 None;
                  ListQueueTagsCall region error_queue_url] |}).
Proof.
  assert (eligible (one_page region) "TEST" error_queue_url = true) as He
    by by_computing.
  split; [exact He|].
  apply (create_sqs_widgets_missing_title_key one_page untitled region "TEST"
           1%nat start
           {| QueueUrls := Some [dev_queue_url; error_queue_url];
              NextToken := None |}
           {| positioning := Positioning.mk 0 0 3 3 12;
              calls := [ListQueuesCall region 10 None] |}
           [dev_queue_url] error_queue_url [] []
           {| positioning := Positioning.mk 0 0 3 3 12;
              calls := [ListQueuesCall region 10 None] |}
           "aqts-capture-error-queue-TEST" {[ "label" := "Error Queue" ]}).
  - by_computing.
  - reflexivity.
  - by_computing.
  - exact He.
  - by_computing.
  - by_computing.
  - by_computing.
Defined.

End MoreRuns.
